(** * mnr: model-number pseudo-regex rewriter and partial matcher

    A shallow embedding of [mnr.py] (class [ModelNumberRegex]): the
    left-to-right rewriter [transform] with its preprocessing and its six
    rules, and the partial matcher [is_match].

    Conventions of the embedding.
    - A Python [str] is a [list ascii]; [lit "..."] writes a literal.  A
      character is its code point, and the alphabet is the code points
      U+0000 to U+00FF.  [\w] and [\d] are Python's Unicode-aware classes on
      these code points: [\d] is [[0-9]], and [\w] is [[A-Za-z0-9_]] with the
      letters and numbers of U+00AA to U+00FF.
    - Lengths and indices are [nat]; a chunk size is a [Z] because the source
      stores the sentinel [-1] there.
    - The patterns the class compiles once in [__init__] ([_pattern0] ...
      [_pattern6]) and the two fixed patterns of [is_match] are written as
      functions on text, each next to the regular expression it stands for;
      the section [Agreement] runs them against the engine of module [Re].
    - [re.match] on a pattern that is only known at run time (a chunk's
      pattern, or the candidate itself) goes through an engine that is a
      parameter of the matcher; module [Re] provides one for evaluation. *)

From Stdlib Require Import Ascii String ZArith Lia Bool Arith PeanoNat.
From Stdlib Require Import List.
Import ListNotations.
Local Open Scope list_scope.

Set Implicit Arguments.

(** ** Text *)

Definition str := list ascii.

Definition lit (s : string) : str := list_ascii_of_string s.

Definition newline : ascii := ascii_of_nat 10.

Definition str_eqb (a b : str) : bool :=
  if list_eq_dec ascii_dec a b then true else false.

Definition in_range (lo hi : nat) (c : ascii) : bool :=
  (lo <=? nat_of_ascii c) && (nat_of_ascii c <=? hi).

(** [\d] *)
Definition is_digit (c : ascii) : bool := in_range 48 57 c.

(** The code points of U+0080 to U+00FF that [str.isalnum] accepts: the
    letters U+00AA, U+00B5, U+00BA, U+00C0 to U+00D6, U+00D8 to U+00F6 and
    U+00F8 to U+00FF, and the numbers U+00B2, U+00B3, U+00B9 and U+00BC to
    U+00BE. *)
Definition is_latin1_alnum (c : ascii) : bool :=
  in_range 170 170 c || in_range 178 179 c || in_range 181 181 c ||
  in_range 185 186 c || in_range 188 190 c || in_range 192 214 c ||
  in_range 216 246 c || in_range 248 255 c.

(** [\w] on a [str] pattern: alphanumeric, or the underscore. *)
Definition is_word (c : ascii) : bool :=
  is_digit c || in_range 65 90 c || in_range 97 122 c || Ascii.eqb c "_" ||
  is_latin1_alnum c.

(** Number of leading characters that satisfy [p]. *)
Fixpoint count_while (p : ascii -> bool) (s : str) : nat :=
  match s with
  | c :: s' => if p c then S (count_while p s') else 0
  | [] => 0
  end.

Definition starts_with (c : ascii) (s : str) : bool :=
  match s with
  | x :: _ => Ascii.eqb x c
  | [] => false
  end.

(** [s[a:b]] for indices [0 <= a], [0 <= b]: shorter than [b - a] when [s]
    ends sooner, empty when [b <= a]. *)
Definition slice (s : str) (a b : nat) : str := firstn (b - a) (skipn a s).

(** [s[:-k]] for [k = len(...)]: Python reads [-0] as [0], so the result is
    empty for [k = 0]; otherwise the last [k] characters are dropped. *)
Definition slice_to_neg (s : str) (k : nat) : str :=
  if k =? 0 then [] else firstn (length s - k) s.

(** [s.split(sep)] for a one-character separator. *)
Fixpoint split (sep : ascii) (s : str) : list str :=
  match s with
  | [] => [[]]
  | c :: s' =>
      if Ascii.eqb c sep then [] :: split sep s'
      else match split sep s' with
           | x :: xs => (c :: x) :: xs
           | [] => [[c]]
           end
  end.

(** [sep.join(l)] *)
Fixpoint join (sep : str) (l : list str) : str :=
  match l with
  | [] => []
  | [x] => x
  | x :: xs => x ++ sep ++ join sep xs
  end.

(** [s.replace(c, by)] for a one-character [c]. *)
Definition replace (c : ascii) (by_ : str) (s : str) : str :=
  flat_map (fun x => if Ascii.eqb x c then by_ else [x]) s.

(** [s.replace(c, by, 1)] *)
Fixpoint replace_first (c : ascii) (by_ : str) (s : str) : str :=
  match s with
  | [] => []
  | x :: s' => if Ascii.eqb x c then by_ ++ s' else x :: replace_first c by_ s'
  end.

(** [l[i] = x] for an index inside the list. *)
Fixpoint set_nth {A : Type} (i : nat) (x : A) (l : list A) : list A :=
  match l, i with
  | [], _ => []
  | _ :: t, O => x :: t
  | h :: t, S j => h :: set_nth j x t
  end.

(** [min(l)] of a non-empty list of lengths. *)
Definition list_min (l : list nat) : nat :=
  match l with
  | [] => 0
  | h :: t => fold_left Nat.min t h
  end.

(** [$]: the end of the text, or just before a newline that ends the text. *)
Definition at_end (s : str) : bool :=
  match s with
  | [] => true
  | [c] => Ascii.eqb c newline
  | _ => false
  end.

(** ** The compiled patterns of [__init__] *)

(** [\d{2,3}/\d{2,3}] at the front of [s]: the length of the match.  The
    first run is followed by the slash, so it is two or three digits exactly;
    the second run is greedy. *)
Definition pattern0_at (s : str) : option nat :=
  let n1 := count_while is_digit s in
  if (2 <=? n1) && (n1 <=? 3) && starts_with "/" (skipn n1 s) then
    let n2 := count_while is_digit (skipn (S n1) s) in
    if 2 <=? n2 then Some (n1 + 1 + Nat.min n2 3) else None
  else None.

(** [_pattern0.search(s)]: the span of the leftmost match. *)
Fixpoint pattern0_search (s : str) : option (nat * nat) :=
  match pattern0_at s with
  | Some n => Some (0, n)
  | None =>
      match s with
      | [] => None
      | _ :: s' =>
          match pattern0_search s' with
          | Some (a, b) => Some (S a, S b)
          | None => None
          end
      end
  end.

(** [\w{1,3},] at the front of [s]: the length of the match. *)
Definition word_group (s : str) : option nat :=
  let n := count_while is_word s in
  if (1 <=? n) && (n <=? 3) && starts_with "," (skipn n s) then Some (S n)
  else None.

(** [(?:\w{1,3},)*] at the front of [s], greedy: the length of the match. *)
Fixpoint word_groups (fuel : nat) (s : str) : nat :=
  match fuel with
  | O => 0
  | S f =>
      match word_group s with
      | Some n => n + word_groups f (skipn n s)
      | None => 0
      end
  end.

(** [_pattern1 = ^(?:\w{1,3},)+]: the matched text. *)
Definition pattern1 (s : str) : option str :=
  let n := word_groups (length s) s in
  if n =? 0 then None else Some (firstn n s).

(** [_pattern1_sub1 = ^\w{1,2},\w{1,2}$]: whether it matches. *)
Definition pattern1_sub1 (s : str) : bool :=
  let n1 := count_while is_word s in
  (1 <=? n1) && (n1 <=? 2) && starts_with "," (skipn n1 s) &&
  (let t := skipn (S n1) s in
   let n2 := count_while is_word t in
   (1 <=? n2) && (n2 <=? 2) && at_end (skipn n2 t)).

(** [_pattern2 = ^\w+]: the matched text. *)
Definition pattern2 (s : str) : option str :=
  let n := count_while is_word s in
  if n =? 0 then None else Some (firstn n s).

(** Where the scan of a parenthesized list stands: nothing read yet, after a
    word character, or after a comma. *)
Inductive body_state := BodyStart | AfterWord | AfterComma.

(** [(?:\w{1,3},?)+\)] at the front of [s]: the length of the match.  The
    groups accept any run of word characters, a comma only after a word
    character, and the closing parenthesis after at least one group. *)
Fixpoint paren_body (st : body_state) (s : str) : option nat :=
  match s with
  | [] => None
  | c :: s' =>
      if is_word c then option_map S (paren_body AfterWord s')
      else if Ascii.eqb c "," then
        match st with
        | AfterWord => option_map S (paren_body AfterComma s')
        | _ => None
        end
      else if Ascii.eqb c ")" then
        match st with
        | BodyStart => None
        | _ => Some 1
        end
      else None
  end.

(** [_pattern3 = ^\((?:\w{1,3},?)+\)]: the matched text. *)
Definition pattern3 (s : str) : option str :=
  match s with
  | c :: s' =>
      if Ascii.eqb c "(" then
        match paren_body BodyStart s' with
        | Some n => Some (firstn (S n) s)
        | None => None
        end
      else None
  | [] => None
  end.

(** [_pattern4 = ^\*+]: the matched text. *)
Definition pattern4 (s : str) : option str :=
  let n := count_while (Ascii.eqb "*") s in
  if n =? 0 then None else Some (firstn n s).

(** [_pattern4_sub1 = ^\*$]: whether it matches. *)
Definition pattern4_sub1 (s : str) : bool :=
  match s with
  | c :: s' => Ascii.eqb c "*" && at_end s'
  | [] => false
  end.

(** [_pattern5 = ^-+]: the matched text. *)
Definition pattern5 (s : str) : option str :=
  let n := count_while (Ascii.eqb "-") s in
  if n =? 0 then None else Some (firstn n s).

(** [_pattern6 = ^\(\*\)]: the matched text. *)
Definition pattern6 (s : str) : option str :=
  match s with
  | a :: b :: c :: _ =>
      if Ascii.eqb a "(" && Ascii.eqb b "*" && Ascii.eqb c ")"
      then Some (firstn 3 s) else None
  | _ => None
  end.

(** ** Chunks *)

(** [PatternChunk = namedtuple('PatternChunk', 'pattern size')] *)
Record PatternChunk := mkChunk { chunk_pattern : str; chunk_size : Z }.

(** ** The preprocessing of [transform] *)

(** [model_number.split('+')[0]] *)
Definition before_plus (s : str) : str := hd [] (split "+" s).

(** [_rule0]: the first [\d{2,3}/\d{2,3}] becomes a parenthesized pair. *)
Definition _rule0 (rem_str : str) : str :=
  match pattern0_search rem_str with
  | Some (a, b) =>
      let group := slice rem_str a b in
      let left := firstn a rem_str in
      let right := skipn b rem_str in
      left ++ (lit "(" ++ replace "/" (lit ",") group ++ lit ")") ++ right
  | None => rem_str
  end.

(** The cursor on which the rule loop starts. *)
Definition preprocess (model_number : str) : str :=
  replace "/" (lit ",") (_rule0 (before_plus model_number)).

(** ** The six rules

    Each rule reads the cursor [self._rem_str] and either returns [None] and
    leaves it alone, or returns a chunk and trims it; here a rule maps the
    cursor to the chunk and the trimmed cursor. *)

Definition _rule1 (rem_str : str) : option (PatternChunk * str) :=
  match pattern1 rem_str with
  | None => None
  | Some pattern =>
      let options := split "," pattern in
      let begin := list_sum (map (@length ascii) options) + length options - 1 in
      let end_ := begin + length (hd [] options) in
      let last := length options - 1 in
      let '(options', rem') :=
        if negb (pattern1_sub1 rem_str)
        then (set_nth last (slice rem_str begin end_) options, skipn end_ rem_str)
        else (set_nth last (skipn begin rem_str) options, [])
      in
      Some (mkChunk (lit "(" ++ join (lit "|") options' ++ lit ")")
                    (Z.of_nat (list_min (map (@length ascii) options'))),
            rem')
  end.

Definition _rule2 (rem_str : str) : option (PatternChunk * str) :=
  match pattern2 rem_str with
  | None => None
  | Some pattern =>
      let size := length pattern in
      Some (mkChunk pattern (Z.of_nat size), skipn size rem_str)
  end.

Definition _rule3 (rem_str : str) : option (PatternChunk * str) :=
  match pattern3 rem_str with
  | None => None
  | Some pattern =>
      let size := (Z.of_nat (length (hd [] (split "," pattern))) - 1)%Z in
      Some (mkChunk (replace "," (lit "|") pattern) size,
            skipn (length pattern) rem_str)
  end.

Definition _rule4 (rem_str : str) : option (PatternChunk * str) :=
  match pattern4 rem_str with
  | None => None
  | Some pattern =>
      let size := length pattern in
      let second_match := pattern4_sub1 rem_str in
      let rem' := skipn size rem_str in
      if second_match
      then Some (mkChunk (replace_first "*" (lit "\w+") pattern) (Z.of_nat size), rem')
      else Some (mkChunk (replace "*" (lit "\w") pattern) (Z.of_nat size), rem')
  end.

Definition _rule5 (rem_str : str) : option (PatternChunk * str) :=
  match pattern5 rem_str with
  | None => None
  | Some pattern =>
      Some (mkChunk (replace "-" (lit "-?") pattern) (-1)%Z,
            skipn (length pattern) rem_str)
  end.

Definition _rule6 (rem_str : str) : option (PatternChunk * str) :=
  match pattern6 rem_str with
  | None => None
  | Some pattern =>
      Some (mkChunk (lit "(\w{1,5})") (-1)%Z, skipn (length pattern) rem_str)
  end.

(** [rules = [_rule1, _rule2, _rule3, _rule4, _rule5, _rule6]] *)
Definition rules : list (str -> option (PatternChunk * str)) :=
  [_rule1; _rule2; _rule3; _rule4; _rule5; _rule6].

(** The [for rule in rules] scan: the first rule that returns a chunk. *)
Fixpoint first_rule (rs : list (str -> option (PatternChunk * str)))
  (rem_str : str) : option (PatternChunk * str) :=
  match rs with
  | [] => None
  | rule :: rs' =>
      match rule rem_str with
      | Some res => Some res
      | None => first_rule rs' rem_str
      end
  end.

(** ** The rule loop of [transform] *)

(** The state of the [while self._rem_str] loop. *)
Record loop_state := mkLoop {
  loop_rem : str;                    (* self._rem_str *)
  loop_chunks : list PatternChunk;   (* self._chunks *)
  break_count : nat
}.

(** One pass of the loop body on a non-empty cursor: the scan of the rules,
    then the test [break_count > 2], then [break_count += 1]. *)
Inductive pass_result :=
| Continue (st : loop_state)
| Stuck (st : loop_state).           (* raise Exception("Couldn't parse ...") *)

Definition loop_pass (st : loop_state) : pass_result :=
  match first_rule rules (loop_rem st) with
  | Some (res, rem') =>
      (* append, break_count = 0, break; then 0 > 2 fails; then += 1 *)
      Continue (mkLoop rem' (loop_chunks st ++ [res]) (0 + 1))
  | None =>
      if 2 <? break_count st then Stuck st
      else Continue (mkLoop (loop_rem st) (loop_chunks st) (break_count st + 1))
  end.

(** How the loop ends. *)
Inductive loop_result :=
| LoopDone (st : loop_state)         (* the cursor is empty *)
| LoopRaised (st : loop_state).

(** The loop, with a bound on the number of passes; [None] when the bound is
    used up before the loop ends. *)
Fixpoint while_loop (fuel : nat) (st : loop_state) : option loop_result :=
  match loop_rem st with
  | [] => Some (LoopDone st)
  | _ :: _ =>
      match fuel with
      | O => None
      | S f =>
          match loop_pass st with
          | Continue st' => while_loop f st'
          | Stuck st' => Some (LoopRaised st')
          end
      end
  end.

(** ** The object *)

(** The attributes of a [ModelNumberRegex] that the core reads and writes.
    [pattern] and [_rem_str] do not exist before the first [transform]; they
    are empty here until then.  The compiled [_pattern*] attributes are
    constants and are the functions above. *)
Record ModelNumberRegex := mkSelf {
  _chunks : list PatternChunk;
  _model_number : option str;
  pattern : str;
  _rem_str : str
}.

(** What the methods raise.  [ValueError('Model number must be string')] has
    no constructor: a model number is a [str] here. *)
Inductive exn :=
| NoModelNumber                 (* AttributeError('No model number specified') *)
| CouldNotParse (rem : str)     (* Exception("Couldn't parse the remaining: ...") *)
| UnknownParsingError           (* Exception('Unknown parsing error.') *)
| NoneHasNoGroup                (* AttributeError: None has no .group() *)
| ReError.                      (* re.error: the pattern does not compile *)

Inductive outcome (A : Type) :=
| Returned (a : A)
| Raised (e : exn).

Arguments Returned {A} a.
Arguments Raised {A} e.

(** A method body: it runs on the object and leaves an object behind. *)
Definition M (A : Type) : Type := ModelNumberRegex -> outcome A * ModelNumberRegex.

Definition ret {A : Type} (a : A) : M A := fun self => (Returned a, self).

Definition raise {A : Type} (e : exn) : M A := fun self => (Raised e, self).

Definition bind {A B : Type} (m : M A) (f : A -> M B) : M B :=
  fun self =>
    match m self with
    | (Returned a, self') => f a self'
    | (Raised e, self') => (Raised e, self')
    end.

(** [try: x = body  except: handler  else: rest x] with a bare [except]. *)
Definition try_except {A B : Type} (body : M A) (rest : A -> M B) (handler : M B) : M B :=
  fun self =>
    match body self with
    | (Returned a, self') => rest a self'
    | (Raised _, self') => handler self'
    end.

(** Reading an attribute of [self]. *)
Definition attr {A : Type} (f : ModelNumberRegex -> A) : M A :=
  fun self => (Returned (f self), self).

Declare Scope mnr_scope.
Delimit Scope mnr_scope with mnr.
Notation "x <- m ;; k" := (bind m (fun x => k))
  (at level 61, m at next level, right associativity) : mnr_scope.
Local Open Scope mnr_scope.

(** Python's truth value of an optional text: [None] and [''] are false. *)
Definition truthy (s : option str) : bool :=
  match s with
  | Some (_ :: _) => true
  | _ => false
  end.

Definition text_of (s : option str) : str :=
  match s with
  | Some t => t
  | None => []
  end.

Definition set_model_number (m : option str) (self : ModelNumberRegex) :=
  mkSelf (_chunks self) m (pattern self) (_rem_str self).

Definition set_rem_str (r : str) (self : ModelNumberRegex) :=
  mkSelf (_chunks self) (_model_number self) (pattern self) r.

Definition set_chunks (c : list PatternChunk) (self : ModelNumberRegex) :=
  mkSelf c (_model_number self) (pattern self) (_rem_str self).

Definition set_pattern (p : str) (self : ModelNumberRegex) :=
  mkSelf (_chunks self) (_model_number self) p (_rem_str self).

(** The number of passes after which the loop has ended: every pass either
    trims the cursor or counts towards the fourth failure. *)
Definition loop_bound (rem_str : str) : nat := length rem_str + 4.

(** [transform(self, model_number=None)]; [None] when the loop bound was used
    up, which [transform_terminates] excludes.  The method returns [self]:
    here it returns nothing and leaves the object. *)
Definition transform (model_number : option str) (self : ModelNumberRegex)
  : option (outcome unit * ModelNumberRegex) :=
  let self := if truthy model_number then set_model_number model_number self else self in
  if negb (truthy (_model_number self)) then Some (Raised NoModelNumber, self)
  else
    let self := set_rem_str (before_plus (text_of (_model_number self))) self in
    let self := set_rem_str (_rule0 (_rem_str self)) self in
    let self := set_rem_str (replace "/" (lit ",") (_rem_str self)) self in
    let self := set_pattern [] (set_chunks [] self) in
    match while_loop (loop_bound (_rem_str self)) (mkLoop (_rem_str self) (_chunks self) 0) with
    | None => None
    | Some (LoopRaised st) =>
        Some (Raised (CouldNotParse (loop_rem st)),
              set_chunks (loop_chunks st) (set_rem_str (loop_rem st) self))
    | Some (LoopDone st) =>
        let self := set_chunks (loop_chunks st) (set_rem_str (loop_rem st) self) in
        match _rem_str self with
        | _ :: _ => Some (Raised UnknownParsingError, self)
        | [] =>
            Some (Returned tt,
                  set_pattern (concat (map chunk_pattern (_chunks self))) self)
        end
    end.

(** [__init__(self, model_number=None)] up to the call of [transform]. *)
Definition new_object (model_number : option str) : ModelNumberRegex :=
  mkSelf [] model_number [] [].

(** [ModelNumberRegex(model_number)] *)
Definition construct (model_number : option str)
  : option (outcome unit * ModelNumberRegex) :=
  if truthy model_number then transform None (new_object model_number)
  else Some (Returned tt, new_object model_number).

(** The compiled object of a raw notation, when the constructor returns. *)
Definition compiled (raw : str) : option ModelNumberRegex :=
  match construct (Some raw) with
  | Some (Returned _, self) => Some self
  | _ => None
  end.

(** ** The partial matcher *)

(** What [re.match(p, s)] does: a match object, of which the matcher reads
    [.group()]; [None]; or [re.error] for a pattern that does not compile. *)
Inductive re_result :=
| Match (group : str)
| NoMatch
| BadPattern.

(** [re.match(p, s).group()] *)
Definition group_of (r : re_result) : M str :=
  match r with
  | Match g => ret g
  | NoMatch => raise NoneHasNoGroup
  | BadPattern => raise ReError
  end.

(** [re.match(r'^\w+$', p)]: whether it matches. *)
Definition is_plain_literal (p : str) : bool :=
  let n := count_while is_word p in
  (1 <=? n) && at_end (skipn n p).

(** [(\w+\|)+(\w+)?\)$] at the front of [s], [bars] telling whether a [|]
    was read: word characters, a bar only after a word character, the closing
    parenthesis after at least one bar, then the end. *)
Fixpoint option_body (st : body_state) (bars : bool) (s : str) : bool :=
  match s with
  | [] => false
  | c :: s' =>
      if is_word c then option_body AfterWord bars s'
      else if Ascii.eqb c "|" then
        match st with
        | AfterWord => option_body AfterComma true s'
        | _ => false
        end
      else if Ascii.eqb c ")" then bars && at_end s'
      else false
  end.

(** [re.match(r'^(\((\w+\|)+(\w+)?\))$', p)]: whether it matches. *)
Definition is_option_group (p : str) : bool :=
  match p with
  | c :: s => Ascii.eqb c "(" && option_body BodyStart false s
  | [] => false
  end.

Section Matcher.

(** [re.match] on patterns that are only known at run time. *)
Variable re_match : str -> str -> re_result.

(** The [for chunk in self._chunks] loop on the remainder [mn]. *)
Fixpoint match_chunks (chunks : list PatternChunk) (mn : str) : M bool :=
  match chunks with
  | [] => ret true
  | chunk :: chunks' =>
      if (chunk_size chunk >? Z.of_nat (length mn))%Z then
        if is_plain_literal (chunk_pattern chunk) then
          try_except (group_of (re_match mn (chunk_pattern chunk)))
                     (fun _ => ret true)
                     (ret false)
        else if is_option_group (chunk_pattern chunk) then
          let p := chunk_pattern chunk in
          let options := split "|" (slice p 1 (length p - 1)) in
          let options := map (fun opt => slice_to_neg opt (length mn)) options in
          let res := existsb (str_eqb mn) options in
          ret res
        else
          (* break, then the final return *)
          ret true
      else
        try_except (group_of (re_match (chunk_pattern chunk) mn))
                   (fun m => match_chunks chunks' (skipn (length m) mn))
                   (ret false)
  end.

(** [is_match(self, model_to_match)]; an absent candidate is [None]. *)
Definition is_match (model_to_match : option str) : M bool :=
  if negb (truthy model_to_match) then ret false
  else
    chunks <- attr _chunks ;;
    match_chunks chunks (text_of model_to_match).

End Matcher.

(** ** A regular-expression engine for evaluation

    [Re.re_match p s] is [re.match(p, s)] for patterns [p] of this fragment
    of Python's syntax: literal characters, [.], [\w], [\d], an escaped
    punctuation character, [^], [$], groups [(...)] and [(?:...)],
    alternation, and the greedy repeats [*], [+], [?], [{m}], [{m,n}], [{m,}]
    and [{,n}] on an item that cannot match the empty text.  Matching is by
    backtracking in Python's order: alternatives from the left, repeats as
    far as they go.  [compile] answers [None] outside the fragment, and
    [re_match] then answers [BadPattern], as Python does for a pattern it
    rejects; the evaluations of this file use patterns of the fragment. *)
Module Re.

Inductive regex :=
| Eps
| Chr (c : ascii)
| Any                                   (* [.]: not a newline *)
| Word                                  (* [\w] *)
| Digit                                 (* [\d] *)
| Bol                                   (* [^] *)
| Eol                                   (* [$] *)
| Seq (a b : regex)
| Alt (a b : regex)
| Rep (a : regex) (lo : nat) (hi : option nat).

(** Whether [r] can match the empty text. *)
Fixpoint nullable (r : regex) : bool :=
  match r with
  | Eps | Bol | Eol => true
  | Chr _ | Any | Word | Digit => false
  | Seq a b => nullable a && nullable b
  | Alt a b => nullable a || nullable b
  | Rep a lo _ => (lo =? 0) || nullable a
  end.

Definition is_special (c : ascii) : bool :=
  existsb (Ascii.eqb c) (lit ".^$*+?{}[]\|()").

Definition is_alnum (c : ascii) : bool :=
  is_digit c || in_range 65 90 c || in_range 97 122 c.

(** A decimal number at the front of [s]: its value and its length. *)
Definition number (s : str) : nat * nat :=
  let n := count_while is_digit s in
  (fold_left (fun acc c => 10 * acc + (nat_of_ascii c - 48)) (firstn n s) 0, n).

(** The repeat that follows an item, if any: its bounds and the rest. *)
Definition repeat_of (s : str) : option (option (nat * option nat) * str) :=
  match s with
  | c :: s' =>
      if Ascii.eqb c "*" then Some (Some (0, None), s')
      else if Ascii.eqb c "+" then Some (Some (1, None), s')
      else if Ascii.eqb c "?" then Some (Some (0, Some 1), s')
      else if Ascii.eqb c "{" then
        let '(m, nm) := number s' in
        let s1 := skipn nm s' in
        if starts_with "}" s1 then
          if nm =? 0 then None else Some (Some (m, Some m), skipn 1 s1)
        else if starts_with "," s1 then
          let '(n, nn) := number (skipn 1 s1) in
          let s2 := skipn nn (skipn 1 s1) in
          if starts_with "}" s2 then
            if (nm =? 0) && (nn =? 0) then None
            else if nn =? 0 then Some (Some (m, None), skipn 1 s2)
            else if m <=? n then Some (Some (m, Some n), skipn 1 s2)
            else None
          else None
        else None
      else Some (None, s)
  | [] => Some (None, [])
  end.

(** An item with its repeat; a repeat of a repeat, a lazy or possessive
    repeat and a repeat of an item that matches the empty text are outside
    the fragment. *)
Definition with_repeat (a : regex) (s : str) : option (regex * str) :=
  match repeat_of s with
  | None => None
  | Some (None, s') => Some (a, s')
  | Some (Some (lo, hi), s') =>
      if nullable a then None
      else if existsb (fun c => starts_with c s') (lit "*+?{") then None
      else Some (Rep a lo hi, s')
  end.

Inductive level := LAlt | LSeq | LItem.

Fixpoint parse (fuel : nat) (l : level) (s : str) : option (regex * str) :=
  match fuel with
  | O => None
  | S f =>
      match l with
      | LAlt =>
          match parse f LSeq s with
          | Some (a, c :: s') =>
              if Ascii.eqb c "|" then
                match parse f LAlt s' with
                | Some (b, s'') => Some (Alt a b, s'')
                | None => None
                end
              else Some (a, c :: s')
          | r => r
          end
      | LSeq =>
          match s with
          | [] => Some (Eps, [])
          | c :: _ =>
              if Ascii.eqb c "|" || Ascii.eqb c ")" then Some (Eps, s)
              else
                match parse f LItem s with
                | Some (a, s') =>
                    match with_repeat a s' with
                    | Some (q, s'') =>
                        match parse f LSeq s'' with
                        | Some (b, s3) => Some (Seq q b, s3)
                        | None => None
                        end
                    | None => None
                    end
                | None => None
                end
          end
      | LItem =>
          match s with
          | [] => None
          | c :: s' =>
              if Ascii.eqb c "(" then
                let body :=
                  match s' with
                  | q :: s1 =>
                      if Ascii.eqb q "?" then
                        match s1 with
                        | d :: s2 => if Ascii.eqb d ":" then parse f LAlt s2 else None
                        | [] => None
                        end
                      else parse f LAlt s'
                  | [] => None
                  end in
                match body with
                | Some (a, d :: s3) => if Ascii.eqb d ")" then Some (a, s3) else None
                | _ => None
                end
              else if Ascii.eqb c "\" then
                match s' with
                | e :: s1 =>
                    if Ascii.eqb e "w" then Some (Word, s1)
                    else if Ascii.eqb e "d" then Some (Digit, s1)
                    else if is_alnum e || negb (nat_of_ascii e <? 128) then None
                    else Some (Chr e, s1)
                | [] => None
                end
              else if Ascii.eqb c "." then Some (Any, s')
              else if Ascii.eqb c "^" then Some (Bol, s')
              else if Ascii.eqb c "$" then Some (Eol, s')
              else if is_special c then None
              else Some (Chr c, s')
          end
      end
  end.

(** [re.compile(p)] *)
Definition compile (p : str) : option regex :=
  match parse (4 * length p + 4) LAlt p with
  | Some (r, []) => Some r
  | _ => None
  end.

Definition step (p : ascii -> bool) (k : nat -> str -> option nat)
  (i : nat) (s : str) : option nat :=
  match s with
  | c :: s' => if p c then k (S i) s' else None
  | [] => None
  end.

(** [exec r k i s]: match [r] at position [i], where [s] is the text from
    [i] on, then hand over to [k]; the end of the first match found. *)
Fixpoint exec (r : regex) (k : nat -> str -> option nat) (i : nat) (s : str)
  : option nat :=
  match r with
  | Eps => k i s
  | Chr c => step (Ascii.eqb c) k i s
  | Any => step (fun x => negb (Ascii.eqb x newline)) k i s
  | Word => step is_word k i s
  | Digit => step is_digit k i s
  | Bol => if i =? 0 then k i s else None
  | Eol => if at_end s then k i s else None
  | Seq a b => exec a (exec b k) i s
  | Alt a b =>
      match exec a k i s with
      | Some e => Some e
      | None => exec b k i s
      end
  | Rep a lo hi =>
      (fix rep (fuel lo : nat) (hi : option nat) (i : nat) (s : str)
         {struct fuel} : option nat :=
         let stop := if lo =? 0 then k i s else None in
         match fuel with
         | O => stop
         | S fuel' =>
             match hi with
             | Some O => stop
             | _ =>
                 match exec a (rep fuel' (pred lo) (option_map pred hi)) i s with
                 | Some e => Some e
                 | None => stop
                 end
             end
         end) (S (length s)) lo hi i s
  end.

(** [r.match(s)] for a compiled [r]: the matched text. *)
Definition match_at_start (r : regex) (s : str) : option str :=
  match exec r (fun i _ => Some i) 0 s with
  | Some e => Some (firstn e s)
  | None => None
  end.

(** [re.match(p, s)] *)
Definition re_match (p s : str) : re_result :=
  match compile p with
  | None => BadPattern
  | Some r =>
      match match_at_start r s with
      | Some g => Match g
      | None => NoMatch
      end
  end.

End Re.

(** [show s] is [s] as a string, for reading results. *)
Definition show (s : str) : string := string_of_list_ascii s.

(** ** Notions of the specification *)

(** [a] is a literal prefix of [b]. *)
Definition is_prefix (a b : str) : bool := str_eqb a (firstn (length a) b).

(** The compiled form of a pattern that is a text of plain characters. *)
Fixpoint literal_regex (w : str) : Re.regex :=
  match w with
  | [] => Re.Eps
  | c :: w' => Re.Seq (Re.Chr c) (literal_regex w')
  end.

(** A text of word characters only. *)
Definition word_text (s : str) : Prop := Forall (fun c => is_word c = true) s.

(** An option of one to [n] word characters. *)
Definition short_option (n : nat) (o : str) : Prop :=
  1 <= length o <= n /\ word_text o.

Definition short_optionb (n : nat) (o : str) : bool :=
  (1 <=? length o) && (length o <=? n) && forallb is_word o.



(** The whole of [s] is two options of 1 or 2 word characters with a single
    comma between them. *)
Definition two_short_options (s : str) : bool :=
  match split "," s with
  | [a; b] => short_optionb 2 a && short_optionb 2 b
  | _ => false
  end.

Definition ends_with_newline (s : str) : bool :=
  match rev s with
  | c :: _ => Ascii.eqb c newline
  | [] => false
  end.



(** A run of two or three digits. *)
Definition digit_run (d : str) : Prop :=
  2 <= length d <= 3 /\ Forall (fun c => is_digit c = true) d.

(** At index [i] of [s] stands a digit run, a slash and a digit run. *)
Definition occurs_at (s : str) (i : nat) : Prop :=
  exists d1 d2,
    digit_run d1 /\ digit_run d2 /\
    firstn (length d1 + 1 + length d2) (skipn i s) = d1 ++ "/"%char :: d2.


(** A pass of the rule loop in which no rule returned a chunk. *)
Definition no_progress (st : loop_state) : Prop :=
  loop_rem st <> [] /\ first_rule rules (loop_rem st) = None.

(** [reaches st st']: the loop started in [st] comes to [st'] at the top of
    a pass. *)
Inductive reaches : loop_state -> loop_state -> Prop :=
| reaches_here st : reaches st st
| reaches_pass st st1 st' :
    loop_rem st <> [] -> loop_pass st = Continue st1 -> reaches st1 st' ->
    reaches st st'.

(** The state in which [transform] enters the loop. *)
Definition loop_start (raw : str) : loop_state := mkLoop (preprocess raw) [] 0.



(** ** Agreement of the pattern functions with the engine

    Each pattern function is run against [Re.re_match] on its regular
    expression, on every text of bounded length over a small alphabet that
    has a letter, a digit, the characters the pattern names, and a newline. *)

(** A newline, to join to the alphabets. *)
Definition nl : str := [newline].

(** The texts of at most [n] characters over [alphabet]. *)
Fixpoint texts (alphabet : list ascii) (n : nat) : list str :=
  match n with
  | O => [[]]
  | S m => [] :: flat_map (fun s => map (fun c => c :: s) alphabet) (texts alphabet m)
  end.

(** [f] and the compiled pattern [p] agree, up to [same], on the texts [l]. *)
Definition agrees {A : Type} (same : A -> option str -> bool) (f : str -> A)
  (p : string) (l : list str) : bool :=
  match Re.compile (lit p) with
  | Some r => forallb (fun s => same (f s) (Re.match_at_start r s)) l
  | None => false
  end.

Definition same_text (a : option str) (b : option str) : bool :=
  match a, b with
  | Some x, Some y => str_eqb x y
  | None, None => true
  | _, _ => false
  end.

Definition same_truth (a : bool) (b : option str) : bool :=
  match b with
  | Some _ => a
  | None => negb a
  end.

Definition same_length (a : option nat) (b : option str) : bool :=
  match a, b with
  | Some n, Some y => n =? length y
  | None, None => true
  | _, _ => false
  end.

(** ** The cases of [test_mnr.py] *)

(** [ModelNumberRegex(raw).is_match(cand)] with the engine [Re.re_match]. *)
Definition accepts (raw cand : string) : option (outcome bool) :=
  match compiled (lit raw) with
  | Some self => Some (fst (is_match Re.re_match (Some (lit cand)) self))
  | None => None
  end.

(** [ModelNumberRegex(raw).pattern] *)
Definition pattern_of (raw : string) : option string :=
  option_map (fun self => show (pattern self)) (compiled (lit raw)).

(** Every chunk pattern of [ModelNumberRegex(raw)] is a pattern of the
    fragment of [Re]. *)
Definition chunks_compile (raw : string) : bool :=
  match compiled (lit raw) with
  | Some self =>
      forallb (fun c => match Re.compile (chunk_pattern c) with
                        | Some _ => true
                        | None => false
                        end) (_chunks self)
  | None => false
  end.

Definition match_cases : list (string * string) :=
  [ ("*DD2B080ACV3", "XDD2B080ACV3");
    ("G(*)(T,X,M)(*)B(*)", "G123");
    ("AB/CD/EF123*(*)(C,D,E)F-9,10", "CD123");
    ("9,10", "9");
    ("58PH*090-(A,C,E)--0**14", "58PHX090C--0XX14");
    ("C(A,C,D,E)36B34+TDR", "CE36B");
    ("FC/MC/PC32A+TXV", "PC32A");
    ("CH33-50/60C+TDR", "CH3360C");
    ("L*48/60Z9", "LX60Z");
    ("L85UF1V104/118F14", "L85UF");
    ("CR33-30/36A+TDR+TXV", "CR33-36A");
    ("CF/CM/CU24A+TXV", "CF2") ]%string.

Definition not_match_cases : list (string * string) :=
  [ ("*DD2B080ACV3", "XDD2B081ACV3");
    ("G(*)(T,X,M)(*)B(*)", "X123");
    ("AB/CD/EF123*(*)(C,D,E)F-9,10", "FK123");
    ("9,10", "8");
    ("58PH*090-(A,C,E)--0**14", "58PHX090C--0XX17");
    ("C(A,C,D,E)36B34+TDR", "CE36B36");
    ("FC/MC/PC32A+TXV", "PX32A");
    ("CH33-50/60C+TDR", "CX3360C");
    ("L*48/60Z9", "LX60Z6");
    ("L85UF1V104/118F14", "L85UF2");
    ("CR33-30/36A+TDR+TXV", "CR33-36B");
    ("CF/CM/CU24A+TXV", "CF25") ]%string.

(** * Facts *)

Section Agreement.

Example pattern0_agrees :
  agrees same_length pattern0_at "\d{2,3}/\d{2,3}" (texts (lit "1/A") 9) = true.
Proof. vm_compute. reflexivity. Qed.

Example pattern1_agrees :
  agrees same_text pattern1 "^(?:\w{1,3},)+" (texts (lit "A1,(" ++ nl) 6) = true.
Proof. vm_compute. reflexivity. Qed.

Example pattern1_sub1_agrees :
  agrees same_truth pattern1_sub1 "^\w{1,2},\w{1,2}$" (texts (lit "A1,(" ++ nl) 6) = true.
Proof. vm_compute. reflexivity. Qed.

Example pattern2_agrees :
  agrees same_text pattern2 "^\w+" (texts (lit "A1_,(" ++ nl) 5) = true.
Proof. vm_compute. reflexivity. Qed.

Example pattern3_agrees :
  agrees same_text pattern3 "^\((?:\w{1,3},?)+\)" (texts (lit "A,()*" ++ nl) 6) = true.
Proof. vm_compute. reflexivity. Qed.

Example pattern4_agrees :
  agrees same_text pattern4 "^\*+" (texts (lit "*A(-" ++ nl) 5) = true.
Proof. vm_compute. reflexivity. Qed.

Example pattern4_sub1_agrees :
  agrees same_truth pattern4_sub1 "^\*$" (texts (lit "*A(-" ++ nl) 5) = true.
Proof. vm_compute. reflexivity. Qed.

Example pattern5_agrees :
  agrees same_text pattern5 "^-+" (texts (lit "*A(-" ++ nl) 5) = true.
Proof. vm_compute. reflexivity. Qed.

Example pattern6_agrees :
  agrees same_text pattern6 "^\(\*\)" (texts (lit "*A()" ++ nl) 5) = true.
Proof. vm_compute. reflexivity. Qed.

Example is_plain_literal_agrees :
  agrees same_truth is_plain_literal "^\w+$" (texts (lit "A1_|(" ++ nl) 5) = true.
Proof. vm_compute. reflexivity. Qed.

Example is_option_group_agrees :
  agrees same_truth is_option_group "^(\((\w+\|)+(\w+)?\))$"
         (texts (lit "A|()," ++ nl) 6) = true.
Proof. vm_compute. reflexivity. Qed.

End Agreement.

(** The word characters of the alphabet, by code point. *)
Example word_code_points :
  filter (fun n => is_word (ascii_of_nat n)) (seq 0 256)
  = seq 48 10 ++ seq 65 26 ++ [95] ++ seq 97 26 ++ [170; 178; 179; 181; 185; 186]
    ++ seq 188 3 ++ seq 192 23 ++ seq 216 31 ++ seq 248 8.
Proof. vm_compute. reflexivity. Qed.

(** The model on the repository's own cases. *)

Example test_match_cases :
  map (fun c => accepts (fst c) (snd c)) match_cases
  = repeat (Some (Returned true)) 12.
Proof. vm_compute. reflexivity. Qed.

Example test_not_match_cases :
  map (fun c => accepts (fst c) (snd c)) not_match_cases
  = repeat (Some (Returned false)) 12.
Proof. vm_compute. reflexivity. Qed.

Example test_cases_in_fragment :
  forallb (fun c => chunks_compile (fst c)) (match_cases ++ not_match_cases) = true.
Proof. vm_compute. reflexivity. Qed.

Example test_regex_chunks :
  option_map (fun self => length (_chunks self)) (compiled (lit "*U1(CD,DK,TT)**--16"))
  = Some 6.
Proof. vm_compute. reflexivity. Qed.

Example test_rule2 :
  option_map (fun self => map chunk_pattern (firstn 1 (_chunks self)))
             (compiled (lit "123(A,B)")) = Some [lit "123"]
  /\ option_map (fun self => map chunk_pattern (firstn 1 (_chunks self)))
                (compiled (lit "123***")) = Some [lit "123"].
Proof. split; vm_compute; reflexivity. Qed.

Example test_rule5 : pattern_of "---123" = Some "-?-?-?123"%string.
Proof. vm_compute. reflexivity. Qed.

Example test_rule6 : pattern_of "(*)" = Some "(\w{1,5})"%string.
Proof. vm_compute. reflexivity. Qed.

Example test_rule0 : pattern_of "ABC123/345DEF" = Some "ABC(123|345)DEF"%string.
Proof. vm_compute. reflexivity. Qed.

Example test_rule1_rule3 :
  pattern_of "(1,2,3)" = Some "(1|2|3)"%string /\
  pattern_of "AB,CD,EF" = Some "(AB|CD|EF)"%string /\
  pattern_of "AB/CD/EF" = Some "(AB|CD|EF)"%string.
Proof. repeat split; vm_compute; reflexivity. Qed.

Example test_rule4 :
  pattern_of "*123" = Some "\w123"%string /\
  pattern_of "123*" = Some "123\w+"%string.
Proof. split; vm_compute; reflexivity. Qed.

(** The patterns that the evaluations below hand to the engine are patterns
    of its fragment. *)
Example evaluated_patterns_compile :
  Re.compile (lit "(ABC|DEF|GHI)")
  = Some (Re.Seq (Re.Alt (Re.Seq (Re.Chr "A") (Re.Seq (Re.Chr "B") (Re.Seq (Re.Chr "C") Re.Eps)))
                 (Re.Alt (Re.Seq (Re.Chr "D") (Re.Seq (Re.Chr "E") (Re.Seq (Re.Chr "F") Re.Eps)))
                         (Re.Seq (Re.Chr "G") (Re.Seq (Re.Chr "H") (Re.Seq (Re.Chr "I") Re.Eps)))))
                 Re.Eps) /\
  Re.compile (lit ".") = Some (Re.Seq Re.Any Re.Eps).
Proof. split; vm_compute; reflexivity. Qed.
(** ** Text *)

Lemma count_while_le (p : ascii -> bool) (s : str) : count_while p s <= length s.
Proof.
  induction s as [|c s IH]; simpl; [lia|].
  destruct (p c); simpl; lia.
Qed.

Lemma count_while_app (p : ascii -> bool) (o s : str) :
  Forall (fun c => p c = true) o ->
  count_while p (o ++ s) = length o + count_while p s.
Proof.
  induction 1 as [|c o Hc _ IH]; simpl; [reflexivity|].
  rewrite Hc, IH. reflexivity.
Qed.

Lemma count_while_stop (p : ascii -> bool) (c : ascii) (s : str) :
  p c = false -> count_while p (c :: s) = 0.
Proof. intros H. simpl. rewrite H. reflexivity. Qed.

Lemma count_while_all (p : ascii -> bool) (s : str) :
  Forall (fun c => p c = true) (firstn (count_while p s) s).
Proof.
  induction s as [|c s IH]; simpl; [constructor|].
  destruct (p c) eqn:E; simpl; constructor; assumption.
Qed.

Lemma count_while_next (p : ascii -> bool) (s : str) (c : ascii) (t : str) :
  skipn (count_while p s) s = c :: t -> p c = false.
Proof.
  induction s as [|x s IH]; simpl; [discriminate|].
  destruct (p x) eqn:E; simpl; intros H.
  - apply IH. assumption.
  - injection H as -> _. assumption.
Qed.

Lemma length_firstn_le {A : Type} (n : nat) (l : list A) :
  n <= length l -> length (firstn n l) = n.
Proof. intros H. rewrite length_firstn. lia. Qed.

Lemma split_not_nil (sep : ascii) (s : str) : split sep s <> [].
Proof.
  destruct s as [|c s]; simpl; [discriminate|].
  destruct (Ascii.eqb c sep); [discriminate|].
  destruct (split sep s); discriminate.
Qed.

Lemma split_app_sep (sep : ascii) (a b : str) :
  ~ In sep a -> split sep (a ++ sep :: b) = a :: split sep b.
Proof.
  induction a as [|c a IH]; simpl; intros H.
  - rewrite Ascii.eqb_refl. reflexivity.
  - destruct (Ascii.eqb c sep) eqn:E.
    + apply Ascii.eqb_eq in E. subst. exfalso. apply H. left. reflexivity.
    + rewrite IH by (intros Hin; apply H; right; assumption). reflexivity.
Qed.

Lemma split_no_sep (sep : ascii) (a : str) : ~ In sep a -> split sep a = [a].
Proof.
  induction a as [|c a IH]; simpl; intros H; [reflexivity|].
  destruct (Ascii.eqb c sep) eqn:E.
  - apply Ascii.eqb_eq in E. subst. exfalso. apply H. left. reflexivity.
  - rewrite IH by (intros Hin; apply H; right; assumption). reflexivity.
Qed.

Lemma join_split (sep : ascii) (s : str) : join [sep] (split sep s) = s.
Proof.
  induction s as [|c s IH]; simpl; [reflexivity|].
  destruct (Ascii.eqb c sep) eqn:E.
  - apply Ascii.eqb_eq in E. subst c.
    pose proof (split_not_nil sep s) as Hne.
    destruct (split sep s) as [|x xs]; [contradiction|].
    simpl in *. rewrite IH. reflexivity.
  - pose proof (split_not_nil sep s) as Hne.
    destruct (split sep s) as [|x xs]; [contradiction|].
    destruct xs as [|y ys]; simpl in *; rewrite <- IH; reflexivity.
Qed.

(** [len(s) = sum(len(x) for x in s.split(sep)) + len(s.split(sep)) - 1] *)
Lemma split_lengths (sep : ascii) (s : str) :
  list_sum (map (@length ascii) (split sep s)) + length (split sep s) - 1 = length s.
Proof.
  induction s as [|c s IH]; simpl; [reflexivity|].
  pose proof (split_not_nil sep s) as Hne.
  destruct (Ascii.eqb c sep).
  - simpl. destruct (split sep s) as [|x xs]; [contradiction|]. simpl in *. lia.
  - destruct (split sep s) as [|x xs]; [contradiction|]. simpl in *. lia.
Qed.

Lemma str_eqb_eq (a b : str) : str_eqb a b = true <-> a = b.
Proof.
  unfold str_eqb. destruct (list_eq_dec ascii_dec a b); split; congruence.
Qed.

Lemma str_eqb_refl (a : str) : str_eqb a a = true.
Proof. apply str_eqb_eq. reflexivity. Qed.

(** ** Every rule trims the cursor *)

Lemma skipn_shorter (n : nat) (s : str) :
  1 <= n -> s <> [] -> length (skipn n s) < length s.
Proof.
  intros Hn Hs. rewrite length_skipn.
  destruct s; [contradiction|]. cbn [length]. lia.
Qed.

Lemma found_not_nil (p : ascii -> bool) (s : str) :
  (count_while p s =? 0) = false -> s <> [] /\ 1 <= length (firstn (count_while p s) s).
Proof.
  intros H. apply Nat.eqb_neq in H.
  pose proof (count_while_le p s) as Hle.
  split.
  - intros ->. simpl in H. contradiction.
  - rewrite length_firstn_le by assumption. lia.
Qed.

Lemma word_groups_le (fuel : nat) (s : str) : word_groups fuel s <= length s.
Proof.
  revert s. induction fuel as [|f IH]; intros s; simpl; [lia|].
  unfold word_group.
  destruct (_ && _) eqn:E; [|lia].
  apply andb_true_iff in E. destruct E as [E1 E3].
  specialize (IH (skipn (S (count_while is_word s)) s)).
  rewrite length_skipn in IH.
  assert (S (count_while is_word s) <= length s).
  { pose proof (count_while_le is_word s).
    destruct (skipn (count_while is_word s) s) eqn:Hs; [discriminate|].
    assert (length (skipn (count_while is_word s) s) = S (length l)) by (rewrite Hs; reflexivity).
    rewrite length_skipn in *. lia. }
  lia.
Qed.

Lemma pattern1_some (s p : str) :
  pattern1 s = Some p -> s <> [] /\ 1 <= length p.
Proof.
  unfold pattern1. destruct (_ =? 0) eqn:E; [discriminate|].
  intros H. injection H as <-. apply Nat.eqb_neq in E.
  pose proof (word_groups_le (length s) s).
  split.
  - intros ->. simpl in E. contradiction.
  - rewrite length_firstn_le by assumption. lia.
Qed.

Lemma rule1_trims (s : str) (c : PatternChunk) (s' : str) :
  _rule1 s = Some (c, s') -> length s' < length s.
Proof.
  unfold _rule1. destruct (pattern1 s) as [p|] eqn:Hp; [|discriminate].
  apply pattern1_some in Hp. destruct Hp as [Hs Hlen].
  rewrite split_lengths.
  destruct (negb (pattern1_sub1 s)); intros H; injection H as _ <-.
  - apply skipn_shorter; [lia|assumption].
  - destruct s; [contradiction|]. simpl. lia.
Qed.

Lemma rule2_trims (s : str) (c : PatternChunk) (s' : str) :
  _rule2 s = Some (c, s') -> length s' < length s.
Proof.
  unfold _rule2, pattern2. destruct (_ =? 0) eqn:E; [discriminate|].
  apply found_not_nil in E. destruct E as [Hs Hlen].
  intros H. injection H as _ <-. apply skipn_shorter; assumption.
Qed.

Lemma rule3_trims (s : str) (c : PatternChunk) (s' : str) :
  _rule3 s = Some (c, s') -> length s' < length s.
Proof.
  unfold _rule3, pattern3. destruct s as [|x s]; [discriminate|].
  destruct (Ascii.eqb x "("); [|discriminate].
  destruct (paren_body BodyStart s); [|discriminate].
  intros H. injection H as _ <-.
  cbn [firstn length skipn]. rewrite length_skipn. lia.
Qed.

Lemma rule4_trims (s : str) (c : PatternChunk) (s' : str) :
  _rule4 s = Some (c, s') -> length s' < length s.
Proof.
  unfold _rule4, pattern4. destruct (_ =? 0) eqn:E; [discriminate|].
  apply found_not_nil in E. destruct E as [Hs Hlen].
  destruct (pattern4_sub1 s); intros H; injection H as _ <-;
    apply skipn_shorter; assumption.
Qed.

Lemma rule5_trims (s : str) (c : PatternChunk) (s' : str) :
  _rule5 s = Some (c, s') -> length s' < length s.
Proof.
  unfold _rule5, pattern5. destruct (_ =? 0) eqn:E; [discriminate|].
  apply found_not_nil in E. destruct E as [Hs Hlen].
  intros H. injection H as _ <-. apply skipn_shorter; assumption.
Qed.

Lemma rule6_trims (s : str) (c : PatternChunk) (s' : str) :
  _rule6 s = Some (c, s') -> length s' < length s.
Proof.
  unfold _rule6, pattern6. destruct s as [|x [|y [|z s]]]; try discriminate.
  destruct (_ && _); [|discriminate].
  intros H. injection H as _ <-. simpl. lia.
Qed.

(** Whichever rule returns a chunk, the cursor gets shorter: the loop cannot
    turn for ever on a cursor that is being consumed. *)
Lemma first_rule_trims (s : str) (c : PatternChunk) (s' : str) :
  first_rule rules s = Some (c, s') -> length s' < length s.
Proof.
  unfold rules. simpl.
  destruct (_rule1 s) as [[c1 s1]|] eqn:H1.
  { intros H. injection H as <- <-. eapply rule1_trims; eassumption. }
  destruct (_rule2 s) as [[c2 s2]|] eqn:H2.
  { intros H. injection H as <- <-. eapply rule2_trims; eassumption. }
  destruct (_rule3 s) as [[c3 s3]|] eqn:H3.
  { intros H. injection H as <- <-. eapply rule3_trims; eassumption. }
  destruct (_rule4 s) as [[c4 s4]|] eqn:H4.
  { intros H. injection H as <- <-. eapply rule4_trims; eassumption. }
  destruct (_rule5 s) as [[c5 s5]|] eqn:H5.
  { intros H. injection H as <- <-. eapply rule5_trims; eassumption. }
  destruct (_rule6 s) as [[c6 s6]|] eqn:H6.
  { intros H. injection H as <- <-. eapply rule6_trims; eassumption. }
  discriminate.
Qed.

(** ** The loop *)

Lemma pass_consumes (st : loop_state) (res : PatternChunk) (rem' : str) :
  first_rule rules (loop_rem st) = Some (res, rem') ->
  loop_pass st = Continue (mkLoop rem' (loop_chunks st ++ [res]) 1).
Proof. intros H. unfold loop_pass. rewrite H. reflexivity. Qed.

Lemma pass_retries (st : loop_state) :
  first_rule rules (loop_rem st) = None -> break_count st <= 2 ->
  loop_pass st = Continue (mkLoop (loop_rem st) (loop_chunks st) (break_count st + 1)).
Proof.
  intros H Hb. unfold loop_pass. rewrite H.
  destruct (2 <? break_count st) eqn:E; [|reflexivity].
  apply Nat.ltb_lt in E. lia.
Qed.

Lemma pass_raises (st : loop_state) :
  first_rule rules (loop_rem st) = None -> 2 < break_count st ->
  loop_pass st = Stuck st.
Proof.
  intros H Hb. unfold loop_pass. rewrite H.
  apply Nat.ltb_lt in Hb. rewrite Hb. reflexivity.
Qed.

Lemma while_loop_step (fuel : nat) (st : loop_state) :
  loop_rem st <> [] ->
  while_loop (S fuel) st =
    match loop_pass st with
    | Continue st' => while_loop fuel st'
    | Stuck st' => Some (LoopRaised st')
    end.
Proof. intros H. simpl. destruct (loop_rem st); [contradiction|reflexivity]. Qed.

Lemma while_loop_no_fuel (st : loop_state) :
  loop_rem st <> [] -> while_loop 0 st = None.
Proof. intros H. simpl. destruct (loop_rem st); [contradiction|reflexivity]. Qed.

(** On a cursor that no rule consumes the loop retries until the counter
    exceeds 2 and then raises, with the cursor and the chunks as they were. *)
Lemma stuck_raises (fuel : nat) (st : loop_state) :
  no_progress st -> 4 <= fuel ->
  exists st', while_loop fuel st = Some (LoopRaised st') /\
              loop_rem st' = loop_rem st /\ loop_chunks st' = loop_chunks st.
Proof.
  intros [Hne Hnone] Hfuel.
  assert (Hgen : forall k f s, 3 - break_count s <= k -> k < f ->
                 loop_rem s = loop_rem st -> loop_chunks s = loop_chunks st ->
                 exists st', while_loop f s = Some (LoopRaised st') /\
                             loop_rem st' = loop_rem st /\ loop_chunks st' = loop_chunks st).
  { induction k as [|k IH]; intros f s Hk Hf Hr Hc.
    - destruct f as [|f]; [lia|].
      rewrite while_loop_step by (rewrite Hr; assumption).
      rewrite pass_raises by (try rewrite Hr; try assumption; lia).
      exists s. auto.
    - destruct f as [|f]; [lia|].
      rewrite while_loop_step by (rewrite Hr; assumption).
      destruct (le_lt_dec (break_count s) 2) as [Hle|Hgt].
      + rewrite pass_retries by (try rewrite Hr; assumption).
        apply IH; cbn [break_count loop_rem loop_chunks]; try assumption; lia.
      + rewrite pass_raises by (try rewrite Hr; assumption).
        exists s. auto. }
  apply (Hgen 3 fuel st); try reflexivity; lia.
Qed.

(** The bound of [transform] is enough: the loop ends. *)
Lemma while_loop_terminates (fuel : nat) (st : loop_state) :
  length (loop_rem st) + 4 <= fuel -> exists r, while_loop fuel st = Some r.
Proof.
  revert st. induction fuel as [|fuel IH]; intros st Hfuel; [lia|].
  destruct (loop_rem st) as [|c rem] eqn:Hrem.
  { exists (LoopDone st). simpl. rewrite Hrem. reflexivity. }
  destruct (first_rule rules (loop_rem st)) as [[res rem']|] eqn:Hrule.
  - rewrite while_loop_step by (rewrite Hrem; discriminate).
    rewrite (pass_consumes _ Hrule).
    apply IH. cbn [loop_rem]. apply first_rule_trims in Hrule.
    rewrite Hrem in Hrule. lia.
  - destruct (@stuck_raises (S fuel) st) as [st' [H _]].
    + split; [rewrite Hrem; discriminate|assumption].
    + lia.
    + eauto.
Qed.

Lemma while_loop_done (fuel : nat) (st st' : loop_state) :
  while_loop fuel st = Some (LoopDone st') -> loop_rem st' = [].
Proof.
  revert st. induction fuel as [|fuel IH]; intros st; simpl.
  - destruct (loop_rem st) eqn:E; [|discriminate].
    intros H. injection H as <-. assumption.
  - destruct (loop_rem st) eqn:E.
    + intros H. injection H as <-. assumption.
    + destruct (loop_pass st); [apply IH|discriminate].
Qed.

(** The loop only raises on a non-empty cursor that no rule consumes. *)
Lemma while_loop_raised (fuel : nat) (st st' : loop_state) :
  while_loop fuel st = Some (LoopRaised st') -> no_progress st'.
Proof.
  revert st. induction fuel as [|fuel IH]; intros st; simpl.
  - destruct (loop_rem st); discriminate.
  - destruct (loop_rem st) eqn:E; [discriminate|].
    destruct (loop_pass st) eqn:Hp; [apply IH|].
    intros H. injection H as <-.
    unfold loop_pass in Hp.
    destruct (first_rule rules (loop_rem st)) as [[res rem']|] eqn:Hr; [discriminate|].
    destruct (2 <? break_count st); [|discriminate].
    injection Hp as <-. split; [rewrite E; discriminate|assumption].
Qed.

(** The loop is deterministic: it goes through every state it reaches. *)
Lemma reaches_run (st s1 : loop_state) (fuel : nat) (r : loop_result) :
  reaches st s1 -> while_loop fuel st = Some r ->
  exists fuel', while_loop fuel' s1 = Some r.
Proof.
  intros H. revert fuel. induction H as [st|st st1 st' Hne Hp _ IH]; intros fuel Hrun.
  - eauto.
  - destruct fuel as [|fuel]; [rewrite while_loop_no_fuel in Hrun by assumption; discriminate|].
    rewrite while_loop_step, Hp in Hrun by assumption. eauto.
Qed.

Lemma no_progress_raises (fuel : nat) (st : loop_state) (r : loop_result) :
  no_progress st -> while_loop fuel st = Some r ->
  exists st', r = LoopRaised st' /\ loop_rem st' = loop_rem st.
Proof.
  revert st. induction fuel as [|fuel IH]; intros st [Hne Hnone] Hrun.
  - rewrite while_loop_no_fuel in Hrun by assumption. discriminate.
  - rewrite while_loop_step in Hrun by assumption.
    destruct (le_lt_dec (break_count st) 2) as [Hle|Hgt].
    + rewrite pass_retries in Hrun by assumption.
      apply IH in Hrun; [|split; assumption]. assumption.
    + rewrite pass_raises in Hrun by assumption.
      injection Hrun as <-. eauto.
Qed.

(** When the loop raises, the last three passes found no rule for the cursor. *)
Lemma raised_after_three (fuel : nat) (st s3 : loop_state) :
  break_count st <= 1 -> while_loop fuel st = Some (LoopRaised s3) ->
  exists s1 s2,
    reaches st s1 /\ loop_pass s1 = Continue s2 /\ loop_pass s2 = Continue s3 /\
    no_progress s1 /\ no_progress s2 /\ no_progress s3.
Proof.
  revert st. induction fuel as [|fuel IH]; intros st Hb Hrun.
  - simpl in Hrun. destruct (loop_rem st); discriminate.
  - destruct (loop_rem st) as [|c rem] eqn:Hrem.
    { simpl in Hrun. rewrite Hrem in Hrun. discriminate. }
    assert (Hne : loop_rem st <> []) by (rewrite Hrem; discriminate).
    rewrite while_loop_step in Hrun by assumption.
    destruct (first_rule rules (loop_rem st)) as [[res rem']|] eqn:Hrule.
    + pose proof (pass_consumes _ Hrule) as Hp. rewrite Hp in Hrun.
      apply IH in Hrun; [|simpl; lia].
      destruct Hrun as (s1 & s2 & Hreach & H).
      exists s1, s2. split; [|assumption].
      eapply reaches_pass; eassumption.
    + (* the first pass without a rule: the cursor stays, the counter runs *)
      set (at_count := fun n => mkLoop (loop_rem st) (loop_chunks st) n).
      assert (Hstuck : forall n, no_progress (at_count n)) by (intros n; split; assumption).
      assert (Hretry : forall n, n <= 2 -> loop_pass (at_count n) = Continue (at_count (n + 1))).
      { intros n Hn. apply (pass_retries (at_count n)); assumption. }
      assert (Hraise : forall f, while_loop (S f) (at_count 3) = Some (LoopRaised (at_count 3))).
      { intros f. rewrite while_loop_step by assumption.
        rewrite (pass_raises (at_count 3)) by (simpl; try assumption; lia). reflexivity. }
      assert (Hst : st = at_count (break_count st)) by (destruct st; reflexivity).
      assert (Hcase : break_count st = 0 \/ break_count st = 1) by lia.
      destruct Hcase as [H0|H1].
      * rewrite Hst, H0 in Hrun |- *. 
        rewrite Hretry in Hrun by lia. simpl in Hrun.
        destruct fuel as [|f1]; [rewrite while_loop_no_fuel in Hrun by assumption; discriminate|].
        rewrite while_loop_step, Hretry in Hrun by (try assumption; lia). simpl in Hrun.
        destruct f1 as [|f2]; [rewrite while_loop_no_fuel in Hrun by assumption; discriminate|].
        rewrite while_loop_step, Hretry in Hrun by (try assumption; lia). simpl in Hrun.
        destruct f2 as [|f3]; [rewrite while_loop_no_fuel in Hrun by assumption; discriminate|].
        rewrite Hraise in Hrun. injection Hrun as <-.
        exists (at_count 1), (at_count 2).
        repeat split; try assumption; try (apply Hretry; lia).
        eapply reaches_pass; [assumption|apply Hretry; lia|apply reaches_here].
      * rewrite Hst, H1 in Hrun |- *.
        rewrite Hretry in Hrun by lia. simpl in Hrun.
        destruct fuel as [|f1]; [rewrite while_loop_no_fuel in Hrun by assumption; discriminate|].
        rewrite while_loop_step, Hretry in Hrun by (try assumption; lia). simpl in Hrun.
        destruct f1 as [|f2]; [rewrite while_loop_no_fuel in Hrun by assumption; discriminate|].
        rewrite Hraise in Hrun. injection Hrun as <-.
        exists (at_count 1), (at_count 2).
        repeat split; try assumption; try (apply Hretry; lia).
        apply reaches_here.
Qed.

(** ** [transform] and its loop *)

(** [transform] on a non-empty notation, as the loop decides it. *)
Lemma transform_unfold (raw : str) (self : ModelNumberRegex) :
  raw <> [] ->
  transform (Some raw) self =
    match while_loop (loop_bound (preprocess raw)) (loop_start raw) with
    | None => None
    | Some (LoopRaised st) =>
        Some (Raised (CouldNotParse (loop_rem st)),
              mkSelf (loop_chunks st) (Some raw) [] (loop_rem st))
    | Some (LoopDone st) =>
        match loop_rem st with
        | _ :: _ =>
            Some (Raised UnknownParsingError,
                  mkSelf (loop_chunks st) (Some raw) [] (loop_rem st))
        | [] =>
            Some (Returned tt,
                  mkSelf (loop_chunks st) (Some raw)
                         (concat (map chunk_pattern (loop_chunks st))) (loop_rem st))
        end
    end.
Proof.
  intros Hraw. destruct raw as [|c raw]; [contradiction|].
  unfold transform, loop_start, preprocess.
  cbn [truthy negb set_model_number set_rem_str set_chunks set_pattern
       _model_number _rem_str _chunks pattern text_of].
  destruct (while_loop _ _) as [[st|st]|]; reflexivity.
Qed.

(** The constructor on a notation is [transform] of that notation on a
    fresh object. *)
Lemma construct_transform (raw : str) :
  raw <> [] -> construct (Some raw) = transform (Some raw) (new_object None).
Proof.
  intros Hraw. destruct raw as [|c raw]; [contradiction|]. reflexivity.
Qed.

Lemma transform_terminates (raw : str) (self : ModelNumberRegex) :
  raw <> [] -> exists res, transform (Some raw) self = Some res.
Proof.
  intros Hraw. rewrite transform_unfold by assumption.
  destruct (@while_loop_terminates (loop_bound (preprocess raw)) (loop_start raw))
    as [r Hr]; [unfold loop_bound; simpl; lia|].
  rewrite Hr. destruct r as [st|st]; [destruct (loop_rem st)|]; eauto.
Qed.

(** C8.  For a non-empty notation [transform] ends; whatever it raises is
    the parse failure, on a non-empty cursor; it raises that failure exactly
    when the loop comes to three passes in a row in which no rule consumes the
    cursor; and when it returns the cursor is empty.  The unclosed list
    [ABC123(A,BC] raises, with [(A,BC] left. *)
Theorem transform_raises_when_stuck :
  (forall (raw : str) (self : ModelNumberRegex),
     raw <> [] ->
     (exists res, transform (Some raw) self = Some res) /\
     (forall e self',
        transform (Some raw) self = Some (Raised e, self') ->
        exists c, e = CouldNotParse c /\ c <> [] /\ _rem_str self' = c) /\
     ((exists c self',
         transform (Some raw) self = Some (Raised (CouldNotParse c), self')) <->
      (exists s1 s2 s3,
         reaches (loop_start raw) s1 /\
         loop_pass s1 = Continue s2 /\ loop_pass s2 = Continue s3 /\
         no_progress s1 /\ no_progress s2 /\ no_progress s3)) /\
     (forall self',
        transform (Some raw) self = Some (Returned tt, self') ->
        _rem_str self' = []))
  /\ (exists self',
        construct (Some (lit "ABC123(A,BC"))
        = Some (Raised (CouldNotParse (lit "(A,BC")), self')).
Proof.
  split.
  - intros raw self Hraw.
    pose proof (@transform_unfold raw self Hraw) as Hun.
    split; [apply transform_terminates; assumption|].
    destruct (while_loop (loop_bound (preprocess raw)) (loop_start raw))
      as [[st|st]|] eqn:Hrun.
    + (* the loop ended on an empty cursor *)
      pose proof (while_loop_done _ _ Hrun) as Hdone.
      rewrite Hdone in Hun.
      split; [|split].
      * intros e self' H. rewrite Hun in H. discriminate.
      * split.
        -- intros (c & self' & H). rewrite Hun in H. discriminate.
        -- intros (s1 & s2 & s3 & Hreach & _ & _ & Hs1 & _).
           destruct (@reaches_run _ _ _ _ Hreach Hrun) as [fuel' Hrun'].
           destruct (@no_progress_raises _ _ _ Hs1 Hrun') as (st' & Habs & _).
           discriminate.
      * intros self' H. rewrite Hun in H. injection H as <-. reflexivity.
    + (* the loop raised *)
      pose proof (while_loop_raised _ _ Hrun) as [Hne Hnone].
      split; [|split].
      * intros e self' H. rewrite Hun in H. injection H as <- <-.
        exists (loop_rem st). auto.
      * split.
        -- intros _.
           destruct (@raised_after_three (loop_bound (preprocess raw)) (loop_start raw) st) as (s1 & s2 & H);
             [simpl; lia|exact Hrun|].
           exists s1, s2, st. assumption.
        -- intros _. rewrite Hun. eauto.
      * intros self' H. rewrite Hun in H. discriminate.
    + destruct (@transform_terminates raw self Hraw) as [res Hres].
      rewrite Hun in Hres. discriminate.
  - eexists. vm_compute. reflexivity.
Qed.

Lemma transform_raises_when_stuck_witness :
  exists s1 s2 s3,
    reaches (loop_start (lit "(A")) s1 /\
    loop_pass s1 = Continue s2 /\ loop_pass s2 = Continue s3 /\
    no_progress s1 /\ no_progress s2 /\ no_progress s3.
Proof.
  assert (Hraw : lit "(A" <> []) by discriminate.
  apply (proj1 (proj1 (proj2 (proj2
           (proj1 transform_raises_when_stuck (lit "(A") (new_object None) Hraw))))).
  eexists _, _. vm_compute. reflexivity.
Defined.

(** Without a notation [transform] raises before the loop, and not the parse
    failure. *)
Lemma transform_without_notation (m : option str) (self : ModelNumberRegex) :
  truthy m = false -> truthy (_model_number self) = false ->
  transform m self = Some (Raised NoModelNumber, self).
Proof.
  intros Hm Hself. unfold transform. rewrite Hm, Hself. reflexivity.
Qed.

(** ** The matcher on any engine *)

Section MatcherFacts.

Variable re_match : str -> str -> re_result.

(** The guarded [re.match(...).group()] of the literal branch: whatever the
    engine answers, the [try] returns a boolean and leaves the object. *)
Lemma literal_branch_returns (mn p : str) (self : ModelNumberRegex) :
  try_except (group_of (re_match mn p)) (fun _ => ret true) (ret false) self
  = (Returned (match re_match mn p with Match _ => true | _ => false end), self).
Proof.
  unfold try_except, group_of. destruct (re_match mn p); reflexivity.
Qed.

(** The walk over the chunks returns a boolean and leaves the object as it
    found it. *)
Lemma match_chunks_returns (chunks : list PatternChunk) (mn : str)
  (self : ModelNumberRegex) :
  exists b, match_chunks re_match chunks mn self = (Returned b, self).
Proof.
  revert mn. induction chunks as [|chunk chunks IH]; intros mn.
  - exists true. reflexivity.
  - cbn [match_chunks].
    destruct (chunk_size chunk >? Z.of_nat (length mn))%Z.
    + destruct (is_plain_literal (chunk_pattern chunk)).
      * rewrite literal_branch_returns. eauto.
      * destruct (is_option_group (chunk_pattern chunk)); eexists; reflexivity.
    + unfold try_except, group_of.
      destruct (re_match (chunk_pattern chunk) mn) as [g| |].
      * apply IH.
      * exists false. reflexivity.
      * exists false. reflexivity.
Qed.

Lemma is_match_returns (cand : option str) (self : ModelNumberRegex) :
  exists b, is_match re_match cand self = (Returned b, self).
Proof.
  unfold is_match. destruct (truthy cand).
  - cbn [negb]. unfold bind, attr. apply match_chunks_returns.
  - exists false. reflexivity.
Qed.

(** C9.  [is_match] never raises: on every object, so on every compiled
    one, and with any engine behind [re.match], it returns [False] for an
    absent and for an empty candidate and a boolean for every candidate. *)
Theorem is_match_never_raises (self : ModelNumberRegex) :
  fst (is_match re_match None self) = Returned false /\
  fst (is_match re_match (Some []) self) = Returned false /\
  (forall cand : option str,
     exists b, fst (is_match re_match cand self) = Returned b).
Proof.
  split; [reflexivity|]. split; [reflexivity|].
  intros cand. destruct (is_match_returns cand self) as [b Hb].
  exists b. rewrite Hb. reflexivity.
Qed.

(** C10.  [is_match] does not write to the object: after a call the chunks,
    the pattern text and the stored model number are what they were, and a
    second call with the same candidate returns what the first returned. *)
Theorem is_match_leaves_object (cand : option str) (self : ModelNumberRegex) :
  let self' := snd (is_match re_match cand self) in
  _chunks self' = _chunks self /\
  pattern self' = pattern self /\
  _model_number self' = _model_number self /\
  fst (is_match re_match cand self') = fst (is_match re_match cand self).
Proof.
  destruct (is_match_returns cand self) as [b Hb].
  cbv zeta. rewrite Hb. cbn [snd fst]. rewrite Hb. auto.
Qed.

End MatcherFacts.

(** ** The preprocessing *)

Lemma skipn_length_app {A : Type} (a b : list A) : skipn (length a) (a ++ b) = b.
Proof. induction a; simpl; auto. Qed.

Lemma firstn_length_app {A : Type} (a b : list A) : firstn (length a) (a ++ b) = a.
Proof. induction a; simpl; [reflexivity|]. f_equal. assumption. Qed.

Lemma firstn_length_app_more {A : Type} (a b : list A) (n : nat) :
  firstn (length a + n) (a ++ b) = a ++ firstn n b.
Proof. induction a; simpl; [reflexivity|]. f_equal. assumption. Qed.

Lemma skipn_length_app_more {A : Type} (a b : list A) (n : nat) :
  skipn (length a + n) (a ++ b) = skipn n b.
Proof. induction a; simpl; auto. Qed.

Lemma before_plus_cut (head tail : str) :
  ~ In "+"%char head -> before_plus (head ++ "+"%char :: tail) = head.
Proof. intros H. unfold before_plus. rewrite split_app_sep by assumption. reflexivity. Qed.

Lemma before_plus_whole (s : str) : ~ In "+"%char s -> before_plus s = s.
Proof. intros H. unfold before_plus. rewrite split_no_sep by assumption. reflexivity. Qed.


Lemma replace_app (c : ascii) (by_ a b : str) :
  replace c by_ (a ++ b) = replace c by_ a ++ replace c by_ b.
Proof. unfold replace. apply flat_map_app. Qed.

Lemma replace_absent (c : ascii) (by_ s : str) :
  Forall (fun x => Ascii.eqb x c = false) s -> replace c by_ s = s.
Proof.
  induction 1 as [|x s Hx _ IH]; [reflexivity|].
  unfold replace in *. cbn [flat_map]. rewrite Hx, IH. reflexivity.
Qed.

Lemma Forall_firstn_all {A : Type} (P : A -> Prop) (n : nat) (l : list A) :
  Forall P l -> Forall P (firstn n l).
Proof.
  intros H. revert n. induction H; intros [|n]; simpl; constructor; auto.
Qed.




(** Where the pattern matches, an occurrence stands. *)
Lemma pattern0_at_sound (s : str) (n : nat) :
  pattern0_at s = Some n -> occurs_at s 0.
Proof.
  unfold pattern0_at.
  set (n1 := count_while is_digit s).
  destruct (_ && _) eqn:E; [|discriminate].
  apply andb_true_iff in E. destruct E as [E Hslash].
  apply andb_true_iff in E. destruct E as [E2 E3].
  apply Nat.leb_le in E2, E3.
  set (t := skipn (S n1) s).
  set (n2 := count_while is_digit t).
  destruct (2 <=? n2) eqn:E4; [|discriminate]. apply Nat.leb_le in E4.
  intros _.
  pose proof (count_while_le is_digit s) as Hle1. fold n1 in Hle1.
  pose proof (count_while_le is_digit t) as Hle2. fold n2 in Hle2.
  assert (Hs : s = firstn n1 s ++ "/"%char :: t).
  { rewrite <- (firstn_skipn n1 s) at 1. f_equal.
    destruct (skipn n1 s) as [|x u] eqn:Hu; [discriminate|].
    cbn [starts_with] in Hslash. apply Ascii.eqb_eq in Hslash. subst x.
    f_equal. unfold t.
    replace (S n1) with (1 + n1) by lia.
    rewrite <- skipn_skipn, Hu. reflexivity. }
  exists (firstn n1 s), (firstn (Nat.min n2 3) t).
  assert (Hlen1 : length (firstn n1 s) = n1) by (apply length_firstn_le; assumption).
  assert (Hlen2 : length (firstn (Nat.min n2 3) t) = Nat.min n2 3)
    by (apply length_firstn_le; lia).
  split; [|split].
  - split; [lia|]. apply count_while_all.
  - split; [lia|].
    rewrite Nat.min_comm, <- firstn_firstn.
    apply Forall_firstn_all. apply count_while_all.
  - cbn [skipn]. rewrite Hlen1, Hlen2.
    rewrite Hs at 1.
    rewrite <- Hlen1 at 1. rewrite <- Nat.add_assoc.
    rewrite firstn_length_app_more. f_equal.
Qed.

Lemma occurs_at_tail (c : ascii) (s : str) (i : nat) :
  occurs_at (c :: s) (S i) <-> occurs_at s i.
Proof. unfold occurs_at. cbn [skipn]. reflexivity. Qed.

Lemma pattern0_search_eq (s : str) :
  pattern0_search s =
    match pattern0_at s with
    | Some n => Some (0, n)
    | None =>
        match s with
        | [] => None
        | _ :: s' =>
            match pattern0_search s' with
            | Some (a, b) => Some (S a, S b)
            | None => None
            end
        end
    end.
Proof. destruct s; reflexivity. Qed.


Lemma pattern0_search_none (s : str) :
  (forall i, ~ occurs_at s i) -> pattern0_search s = None.
Proof.
  induction s as [|c s IH]; intros Hno.
  - rewrite pattern0_search_eq.
    destruct (pattern0_at []) as [m|] eqn:Hm; [|reflexivity].
    exfalso. apply (Hno 0). eapply pattern0_at_sound. exact Hm.
  - rewrite pattern0_search_eq.
    destruct (pattern0_at (c :: s)) as [m|] eqn:Hm.
    + exfalso. apply (Hno 0). eapply pattern0_at_sound. exact Hm.
    + rewrite IH; [reflexivity|].
      intros i Hocc. apply (Hno (S i)). apply occurs_at_tail. assumption.
Qed.




(** ** The bare-list rule *)

Lemma cut_at_char (c : ascii) (n : nat) (s : str) :
  starts_with c (skipn n s) = true -> s = firstn n s ++ c :: skipn (S n) s.
Proof.
  intros H. rewrite <- (firstn_skipn n s) at 1. f_equal.
  destruct (skipn n s) as [|x u] eqn:Hu; [discriminate|].
  cbn [starts_with] in H. apply Ascii.eqb_eq in H. subst x. f_equal.
  replace (S n) with (1 + n) by lia.
  rewrite <- skipn_skipn, Hu. reflexivity.
Qed.

Lemma word_not_comma (o : str) : word_text o -> ~ In ","%char o.
Proof.
  intros H Hin. unfold word_text in H. rewrite Forall_forall in H.
  apply H in Hin. discriminate.
Qed.

Lemma short_optionb_spec (n : nat) (o : str) :
  short_optionb n o = true <-> short_option n o.
Proof.
  unfold short_optionb, short_option, word_text.
  rewrite !andb_true_iff, !Nat.leb_le, forallb_forall, Forall_forall. tauto.
Qed.

Lemma count_word_option (o s : str) :
  word_text o -> count_while is_word (o ++ ","%char :: s) = length o.
Proof.
  intros H. rewrite (count_while_app is_word) by exact H.
  rewrite count_while_stop by reflexivity. lia.
Qed.










(** [_pattern1_sub1] accepts two short options with a comma between them,
    and the same followed by one newline. *)
Lemma pattern1_sub1_spec (s : str) :
  pattern1_sub1 s = true <->
  exists a b tail,
    short_option 2 a /\ short_option 2 b /\ at_end tail = true /\
    s = a ++ ","%char :: b ++ tail.
Proof.
  unfold pattern1_sub1. split.
  - intros H.
    apply andb_true_iff in H. destruct H as [H H2].
    apply andb_true_iff in H. destruct H as [H Hc].
    apply andb_true_iff in H. destruct H as [E1 E2].
    apply andb_true_iff in H2. destruct H2 as [H2 Hend].
    apply andb_true_iff in H2. destruct H2 as [F1 F2].
    apply Nat.leb_le in E1, E2, F1, F2.
    set (n1 := count_while is_word s) in *.
    set (t := skipn (S n1) s) in *.
    set (n2 := count_while is_word t) in *.
    pose proof (count_while_le is_word s) as Hle1. fold n1 in Hle1.
    pose proof (count_while_le is_word t) as Hle2. fold n2 in Hle2.
    exists (firstn n1 s), (firstn n2 t), (skipn n2 t).
    split; [|split; [|split]].
    + split; [rewrite length_firstn_le by assumption; lia|apply count_while_all].
    + split; [rewrite length_firstn_le by assumption; lia|apply count_while_all].
    + assumption.
    + rewrite (firstn_skipn n2 t). apply cut_at_char. assumption.
  - intros (a & b & tail & [Hla Hwa] & [Hlb Hwb] & Hend & ->).
    rewrite count_word_option by assumption.
    rewrite skipn_length_app. cbn [starts_with].
    replace (S (length a)) with (length a + 1) by lia.
    rewrite skipn_length_app_more. cbn [skipn].
    rewrite (count_while_app is_word) by exact Hwb.
    assert (Htail : count_while is_word tail = 0).
    { destruct tail as [|c [|d tail]]; [reflexivity| |discriminate].
      cbn [at_end] in Hend. apply Ascii.eqb_eq in Hend. subst c. reflexivity. }
    rewrite Htail, Nat.add_0_r, skipn_length_app, Hend.
    rewrite !andb_true_iff, !Nat.leb_le. repeat split; try lia.
Qed.

Lemma two_short_options_spec (s : str) :
  two_short_options s = true <->
  exists a b, short_option 2 a /\ short_option 2 b /\ s = a ++ ","%char :: b.
Proof.
  unfold two_short_options. split.
  - pose proof (join_split "," s) as Hj.
    destruct (split "," s) as [|a [|b [|c l]]]; try discriminate.
    intros H. apply andb_true_iff in H. destruct H as [Ha Hb].
    apply short_optionb_spec in Ha, Hb.
    exists a, b. split; [assumption|]. split; [assumption|].
    rewrite <- Hj. reflexivity.
  - intros (a & b & Ha & Hb & ->).
    rewrite split_app_sep by (apply word_not_comma; apply Ha).
    rewrite split_no_sep by (apply word_not_comma; apply Hb).
    apply andb_true_iff. split; apply short_optionb_spec; assumption.
Qed.

Lemma ends_with_newline_app (a : str) :
  ends_with_newline (a ++ [newline]) = true.
Proof. unfold ends_with_newline. rewrite rev_app_distr. reflexivity. Qed.

(** Away from a cursor that ends in a newline, [_pattern1_sub1] says whether
    the cursor is two short options. *)
Lemma pattern1_sub1_two_short (s : str) :
  ends_with_newline s = false -> pattern1_sub1 s = two_short_options s.
Proof.
  intros Hnl.
  destruct (pattern1_sub1 s) eqn:E1; destruct (two_short_options s) eqn:E2;
    try reflexivity; exfalso.
  - apply pattern1_sub1_spec in E1.
    destruct E1 as (a & b & tail & Ha & Hb & Hend & Hs).
    destruct tail as [|c [|d tail]]; [| |discriminate].
    + rewrite app_nil_r in Hs.
      assert (two_short_options s = true) by (apply two_short_options_spec; eauto).
      congruence.
    + cbn [at_end] in Hend. apply Ascii.eqb_eq in Hend. subst c.
      assert (Hs' : s = (a ++ ","%char :: b) ++ [newline])
        by (rewrite Hs, <- app_assoc; reflexivity).
      rewrite Hs', ends_with_newline_app in Hnl. discriminate.
  - apply two_short_options_spec in E2. destruct E2 as (a & b & Ha & Hb & Hs).
    assert (pattern1_sub1 s = true).
    { apply pattern1_sub1_spec. exists a, b, []. rewrite app_nil_r. auto. }
    congruence.
Qed.








(** The newline case: on [A,B] and a newline the rule takes the second
    option with the newline. *)
Example rule1_two_options_and_newline :
  _rule1 (lit "A,B" ++ [newline]) =
    Some (mkChunk (lit "(A|B" ++ [newline] ++ lit ")") 1, []).
Proof. vm_compute. reflexivity. Qed.


(** ** The parenthesized-list rule on lists *)

Lemma paren_body_word_cons (st : body_state) (c : ascii) (s : str) :
  is_word c = true -> paren_body st (c :: s) = option_map S (paren_body AfterWord s).
Proof. intros H. cbn [paren_body]. rewrite H. reflexivity. Qed.

Lemma paren_body_word (st : body_state) (c : ascii) (o s : str) :
  word_text (c :: o) ->
  paren_body st (c :: o ++ s)
  = option_map (Nat.add (length (c :: o))) (paren_body AfterWord s).
Proof.
  revert st c. induction o as [|d o IH]; intros st c Hw.
  - inversion Hw as [|? ? Hc _]; subst.
    rewrite paren_body_word_cons by assumption. reflexivity.
  - inversion Hw as [|? ? Hc Hw']; subst.
    rewrite paren_body_word_cons by assumption.
    change ((d :: o) ++ s) with (d :: o ++ s).
    rewrite IH by assumption.
    destruct (paren_body AfterWord s); reflexivity.
Qed.

Lemma paren_body_comma (s : str) :
  paren_body AfterWord (","%char :: s) = option_map S (paren_body AfterComma s).
Proof. reflexivity. Qed.

Lemma paren_body_close (s : str) : paren_body AfterWord (")"%char :: s) = Some 1.
Proof. reflexivity. Qed.

Lemma paren_body_list (st : body_state) (opts : list str) (rest : str) :
  opts <> [] -> Forall (short_option 3) opts ->
  paren_body st (join (lit ",") opts ++ ")"%char :: rest)
  = Some (length (join (lit ",") opts) + 1).
Proof.
  intros Hne Hopts. revert st.
  induction Hopts as [|o opts [Hlen Hw] Hrest IH]; [contradiction|]; intros st.
  destruct o as [|c o]; [cbn [length] in Hlen; lia|].
  destruct opts as [|o2 opts].
  - cbn [join]. change ((c :: o) ++ ")"%char :: rest) with (c :: o ++ ")"%char :: rest).
    rewrite paren_body_word by assumption.
    rewrite paren_body_close. cbn [option_map]. reflexivity.
  - change (join (lit ",") ((c :: o) :: o2 :: opts))
      with ((c :: o) ++ ","%char :: join (lit ",") (o2 :: opts)).
    rewrite <- app_assoc.
    change ((c :: o) ++ (","%char :: join (lit ",") (o2 :: opts)) ++ ")"%char :: rest)
      with (c :: o ++ ","%char :: (join (lit ",") (o2 :: opts) ++ ")"%char :: rest)).
    rewrite paren_body_word by assumption.
    rewrite paren_body_comma.
    rewrite IH by discriminate.
    cbn [option_map]. f_equal. rewrite !length_app. cbn [length]. lia.
Qed.

Lemma word_not_in (c : ascii) (o : str) : is_word c = false -> word_text o -> ~ In c o.
Proof.
  intros Hc Hw Hin. unfold word_text in Hw. rewrite Forall_forall in Hw.
  apply Hw in Hin. congruence.
Qed.

Lemma word_no_char (c : ascii) (o : str) :
  is_word c = false -> word_text o -> Forall (fun x => Ascii.eqb x c = false) o.
Proof.
  intros Hc Hw. eapply Forall_impl; [|exact Hw].
  intros x Hx. destruct (Ascii.eqb x c) eqn:E; [|reflexivity].
  apply Ascii.eqb_eq in E. congruence.
Qed.

Lemma replace_join (opts : list str) :
  Forall (short_option 3) opts ->
  replace "," (lit "|") (join (lit ",") opts) = join (lit "|") opts.
Proof.
  induction 1 as [|o opts [_ Hw] _ IH]; [reflexivity|].
  destruct opts as [|o2 opts].
  - cbn [join]. apply replace_absent. apply word_no_char; [reflexivity|assumption].
  - change (join (lit ",") (o :: o2 :: opts))
      with (o ++ [","%char] ++ join (lit ",") (o2 :: opts)).
    change (join (lit "|") (o :: o2 :: opts))
      with (o ++ lit "|" ++ join (lit "|") (o2 :: opts)).
    rewrite !replace_app, IH.
    rewrite (@replace_absent ","%char (lit "|") o)
      by (apply word_no_char; [reflexivity|assumption]).
    reflexivity.
Qed.

(** On a parenthesized list of options of 1 to 3 word characters the rule
    emits the list with bars for commas and trims it from the cursor; the
    size is the length of the first option when there are two options or
    more, and one more than that when the option is alone. *)
Lemma rule3_list (opts : list str) (rest : str) :
  opts <> [] -> Forall (short_option 3) opts ->
  _rule3 (lit "(" ++ join (lit ",") opts ++ lit ")" ++ rest)
  = Some (mkChunk (lit "(" ++ join (lit "|") opts ++ lit ")")
                  (if length opts =? 1
                   then Z.of_nat (length (hd [] opts)) + 1
                   else Z.of_nat (length (hd [] opts))),
          rest).
Proof.
  intros Hne Hopts. unfold _rule3, pattern3.
  change (lit "(" ++ join (lit ",") opts ++ lit ")" ++ rest)
    with ("("%char :: join (lit ",") opts ++ ")"%char :: rest).
  cbv beta iota. rewrite Ascii.eqb_refl, paren_body_list by assumption.
  set (body := join (lit ",") opts).
  assert (Hpat : firstn (S (length body + 1)) ("("%char :: body ++ ")"%char :: rest)
                 = "("%char :: body ++ [")"%char]).
  { cbn [firstn]. f_equal.
    replace (body ++ ")"%char :: rest) with ((body ++ [")"%char]) ++ rest)
      by (rewrite <- app_assoc; reflexivity).
    replace (length body + 1) with (length (body ++ [")"%char]))
      by (rewrite length_app; reflexivity).
    apply firstn_length_app. }
  rewrite Hpat. clear Hpat.
  assert (Hrest : skipn (length ("("%char :: body ++ [")"%char]))
                        ("("%char :: body ++ ")"%char :: rest) = rest).
  { cbn [length skipn].
    replace (body ++ ")"%char :: rest) with ((body ++ [")"%char]) ++ rest)
      by (rewrite <- app_assoc; reflexivity).
    apply skipn_length_app. }
  rewrite Hrest. clear Hrest.
  assert (Hrep : replace "," (lit "|") ("("%char :: body ++ [")"%char])
                 = lit "(" ++ join (lit "|") opts ++ lit ")").
  { change ("("%char :: body ++ [")"%char]) with (["("%char] ++ body ++ [")"%char]).
    rewrite !replace_app. unfold body. rewrite replace_join by assumption.
    reflexivity. }
  rewrite Hrep. clear Hrep.
  f_equal. f_equal. f_equal.
  unfold body. destruct Hopts as [|o opts [Hlen Hw] Hopts]; [contradiction|].
  destruct opts as [|o2 opts].
  - cbn [join length hd Nat.eqb].
    rewrite split_no_sep.
    + cbn [hd length]. rewrite length_app. cbn [length]. lia.
    + intros [Hin|Hin]; [discriminate|].
      apply in_app_or in Hin. destruct Hin as [Hin|[Hin|[]]]; [|discriminate].
      revert Hin. apply word_not_comma. assumption.
  - change (join (lit ",") (o :: o2 :: opts))
      with (o ++ ","%char :: join (lit ",") (o2 :: opts)).
    rewrite <- app_assoc.
    change ("("%char :: o ++ (","%char :: join (lit ",") (o2 :: opts)) ++ [")"%char])
      with (("("%char :: o) ++ ","%char :: join (lit ",") (o2 :: opts) ++ [")"%char]).
    rewrite split_app_sep.
    + cbn [hd length Nat.eqb]. lia.
    + intros [Hin|Hin]; [discriminate|].
      revert Hin. apply word_not_comma. assumption.
Qed.

(** C5.  On the list [(A)] of one option the parenthesized-list rule emits
    the size 2, where the option has one character: the text before the
    first comma is then the whole [(A)], closing parenthesis included, and
    one is subtracted for the opening one only.  With that size the compiled
    pattern accepts the candidate [B]. *)
Theorem rule3_single_option_size :
  _rule3 (lit "(A)") = Some (mkChunk (lit "(A)") 2, []) /\
  hd [] (split "," (lit "(A)")) = lit "(A)" /\
  length (lit "A") = 1 /\
  option_map _chunks (compiled (lit "(A)")) = Some [mkChunk (lit "(A)") 2] /\
  accepts "(A)" "B" = Some (Returned true).
Proof.
  repeat split; vm_compute; reflexivity.
Qed.

(** ** The asterisk rule away from the newline *)

Lemma count_stars (n : nat) (rest : str) :
  starts_with "*" rest = false ->
  count_while (Ascii.eqb "*") (repeat "*"%char n ++ rest) = n.
Proof.
  intros Hrest. induction n as [|n IH]; cbn [repeat app count_while].
  - destruct rest as [|c rest]; [reflexivity|].
    cbn [starts_with] in Hrest. cbn [count_while].
    rewrite Ascii.eqb_sym, Hrest. reflexivity.
  - rewrite Ascii.eqb_refl, IH. reflexivity.
Qed.

Lemma replace_stars (n : nat) :
  replace "*" (lit "\w") (repeat "*"%char n) = concat (repeat (lit "\w") n).
Proof.
  induction n as [|n IH]; [reflexivity|].
  unfold replace in *. cbn [repeat flat_map concat]. rewrite IH. reflexivity.
Qed.

(** On a cursor that begins with exactly [n] asterisks, and is not an
    asterisk before a final newline, the rule emits [\w+] of size 1 when the
    cursor is a single asterisk and [n] times [\w] of size [n] otherwise. *)
Lemma rule4_run (n : nat) (rest : str) :
  1 <= n -> starts_with "*" rest = false ->
  repeat "*"%char n ++ rest <> lit "*" ++ [newline] ->
  _rule4 (repeat "*"%char n ++ rest)
  = Some (if str_eqb (repeat "*"%char n ++ rest) (lit "*")
          then mkChunk (lit "\w+") 1
          else mkChunk (concat (repeat (lit "\w") n)) (Z.of_nat n),
          rest).
Proof.
  intros Hn Hrest Hnl. unfold _rule4, pattern4.
  rewrite count_stars by assumption.
  replace (n =? 0) with false by (symmetry; apply Nat.eqb_neq; lia).
  assert (Hlen : length (repeat "*"%char n) = n) by apply repeat_length.
  assert (Hf : firstn n (repeat "*"%char n ++ rest) = repeat "*"%char n).
  { rewrite <- Hlen at 1. apply firstn_length_app. }
  assert (Hs : skipn n (repeat "*"%char n ++ rest) = rest).
  { rewrite <- Hlen at 1. apply skipn_length_app. }
  rewrite Hf, Hlen, Hs. clear Hf Hs Hlen.
  destruct n as [|[|n]]; [lia| |].
  - (* one asterisk *)
    cbn [repeat app] in *. unfold pattern4_sub1. rewrite Ascii.eqb_refl. cbn [andb].
    destruct rest as [|c [|d rest]].
    + reflexivity.
    + cbn [at_end]. destruct (Ascii.eqb c newline) eqn:E.
      * apply Ascii.eqb_eq in E. subst c. exfalso. apply Hnl. reflexivity.
      * unfold str_eqb. destruct (list_eq_dec ascii_dec _ _) as [Heq|_]; [discriminate|].
        reflexivity.
    + cbn [at_end]. unfold str_eqb.
      destruct (list_eq_dec ascii_dec _ _) as [Heq|_]; [discriminate|]. reflexivity.
  - (* two asterisks or more *)
    assert (Hsub : pattern4_sub1 (repeat "*"%char (S (S n)) ++ rest) = false).
    { cbn [repeat app]. unfold pattern4_sub1. rewrite Ascii.eqb_refl. cbn [andb at_end].
      destruct (repeat "*"%char n ++ rest); reflexivity. }
    rewrite Hsub, replace_stars.
    unfold str_eqb. destruct (list_eq_dec ascii_dec _ _) as [Heq|_]; [discriminate|].
    reflexivity.
Qed.

(** C6.  On the cursor made of an asterisk and a newline, which is not a
    single asterisk, the asterisk rule emits the open wildcard [\w+]:
    [^\*$] matches before a newline that ends the text. *)
Theorem rule4_asterisk_before_newline :
  let cursor := lit "*" ++ [newline] in
  cursor <> lit "*" /\
  pattern4 cursor = Some (lit "*") /\
  pattern4_sub1 cursor = true /\
  _rule4 cursor = Some (mkChunk (lit "\w+") 1, [newline]).
Proof.
  cbv zeta. repeat split; try discriminate; vm_compute; reflexivity.
Qed.

(** ** The too-short branches of the matcher *)

(** What the option-group branch computes: the remainder is accepted when
    it is the first half of an option (or is empty). *)
Lemma cut_options_spec (mn : str) (options : list str) :
  existsb (str_eqb mn) (map (fun opt => slice_to_neg opt (length mn)) options) = true
  <->
  exists opt, In opt options /\ mn = firstn (length mn) opt /\
              (mn = [] \/ length opt = 2 * length mn).
Proof.
  rewrite existsb_exists. split.
  - intros (x & Hin & Heq). apply in_map_iff in Hin.
    destruct Hin as (opt & <- & Hin). apply str_eqb_eq in Heq.
    exists opt. split; [assumption|].
    unfold slice_to_neg in Heq.
    destruct (length mn =? 0) eqn:E.
    + subst mn. split; [reflexivity|left; reflexivity].
    + apply Nat.eqb_neq in E.
      assert (Hlen : length mn = length opt - length mn).
      { rewrite Heq at 1. rewrite length_firstn. lia. }
      split; [|right; lia].
      rewrite Hlen at 1. assumption.
  - intros (opt & Hin & Hpre & Hhalf).
    exists (slice_to_neg opt (length mn)). split.
    + apply in_map_iff. exists opt. split; [reflexivity|assumption].
    + apply str_eqb_eq. unfold slice_to_neg.
      destruct (length mn =? 0) eqn:E.
      * apply Nat.eqb_eq in E. destruct mn; [reflexivity|discriminate].
      * apply Nat.eqb_neq in E.
        destruct Hhalf as [->|Hhalf]; [contradiction|].
        replace (length opt - length mn) with (length mn) by lia. assumption.
Qed.

(** So whatever that branch accepts is an option cut to the length of the
    remainder; the converse is what fails. *)
Lemma cut_options_sound (mn : str) (options : list str) :
  existsb (str_eqb mn) (map (fun opt => slice_to_neg opt (length mn)) options) = true ->
  In mn (map (firstn (length mn)) options).
Proof.
  intros H. apply cut_options_spec in H. destruct H as (opt & Hin & Hpre & _).
  apply in_map_iff. exists opt. split; [symmetry|]; assumption.
Qed.

Lemma word_eqb_false (c x : ascii) :
  is_word c = true -> is_word x = false -> Ascii.eqb c x = false.
Proof.
  intros Hc Hx. destruct (Ascii.eqb c x) eqn:E; [|reflexivity].
  apply Ascii.eqb_eq in E. congruence.
Qed.

Lemma word_not_special (c : ascii) : is_word c = true -> Re.is_special c = false.
Proof.
  intros Hc. unfold Re.is_special. cbn [lit list_ascii_of_string existsb].
  rewrite !(@word_eqb_false c _ Hc) by reflexivity. reflexivity.
Qed.

Lemma repeat_of_word (w : str) :
  word_text w -> Re.repeat_of w = Some (None, w).
Proof.
  intros Hw. destruct w as [|c w]; [reflexivity|].
  inversion Hw as [|? ? Hc _]; subst. unfold Re.repeat_of.
  rewrite !(@word_eqb_false c _ Hc) by reflexivity. reflexivity.
Qed.

Lemma parse_item_word (f : nat) (c : ascii) (w : str) :
  is_word c = true -> Re.parse (S f) Re.LItem (c :: w) = Some (Re.Chr c, w).
Proof.
  intros Hc. cbn [Re.parse].
  rewrite !(@word_eqb_false c _ Hc) by reflexivity.
  rewrite word_not_special by assumption. reflexivity.
Qed.

Lemma parse_seq_word (w : str) (fuel : nat) :
  word_text w -> length w < fuel ->
  Re.parse fuel Re.LSeq w = Some (literal_regex w, []).
Proof.
  intros Hw. revert fuel. induction Hw as [|c w Hc Hw IH]; intros fuel Hfuel.
  - destruct fuel; [lia|]. reflexivity.
  - destruct fuel as [|[|f]]; cbn [length] in Hfuel; try lia.
    assert (Hseq : Re.parse (S (S f)) Re.LSeq (c :: w) =
                   match Re.parse (S f) Re.LItem (c :: w) with
                   | Some (a, s') =>
                       match Re.with_repeat a s' with
                       | Some (q, s'') =>
                           match Re.parse (S f) Re.LSeq s'' with
                           | Some (b, s3) => Some (Re.Seq q b, s3)
                           | None => None
                           end
                       | None => None
                       end
                   | None => None
                   end).
    { cbn [Re.parse]. rewrite !(@word_eqb_false c _ Hc) by reflexivity. reflexivity. }
    rewrite Hseq, parse_item_word by assumption.
    unfold Re.with_repeat. rewrite repeat_of_word by exact Hw.
    rewrite IH by lia. reflexivity.
Qed.

(** A pattern of word characters compiles to the sequence of its
    characters. *)
Lemma compile_word (w : str) : word_text w -> Re.compile w = Some (literal_regex w).
Proof.
  intros Hw. unfold Re.compile.
  replace (4 * length w + 4) with (S (4 * length w + 3)) by lia.
  cbn [Re.parse]. rewrite parse_seq_word by (try assumption; lia). reflexivity.
Qed.

Lemma is_prefix_cons (c x : ascii) (w s : str) :
  is_prefix (c :: w) (x :: s) = Ascii.eqb c x && is_prefix w s.
Proof.
  unfold is_prefix. cbn [length firstn].
  destruct (Ascii.eqb c x) eqn:E; cbn [andb].
  - apply Ascii.eqb_eq in E. subst x. unfold str_eqb.
    destruct (list_eq_dec ascii_dec w (firstn (length w) s)) as [H|H];
      destruct (list_eq_dec ascii_dec (c :: w) (c :: firstn (length w) s)) as [H'|H'];
      try reflexivity.
    + exfalso. apply H'. f_equal. assumption.
    + exfalso. apply H. injection H' as H'. assumption.
  - apply Ascii.eqb_neq in E. unfold str_eqb.
    destruct (list_eq_dec ascii_dec _ _) as [H|H]; [|reflexivity].
    injection H as H _. contradiction.
Qed.

Lemma exec_literal (w : str) (k : nat -> str -> option nat) (i : nat) (s : str) :
  Re.exec (literal_regex w) k i s
  = if is_prefix w s then k (i + length w) (skipn (length w) s) else None.
Proof.
  revert i s. induction w as [|c w IH]; intros i s.
  - cbn [literal_regex Re.exec length skipn]. rewrite Nat.add_0_r. reflexivity.
  - cbn [literal_regex Re.exec]. unfold Re.step.
    destruct s as [|x s]; [reflexivity|].
    rewrite is_prefix_cons.
    destruct (Ascii.eqb c x); cbn [andb]; [|reflexivity].
    rewrite IH. cbn [length skipn].
    replace (S i + length w) with (i + S (length w)) by lia. reflexivity.
Qed.

(** With a pattern of word characters [re.match] is the test for a literal
    prefix. *)
Lemma re_match_word (mn p : str) :
  word_text mn ->
  Re.re_match mn p = if is_prefix mn p then Match mn else NoMatch.
Proof.
  intros Hw. unfold Re.re_match, Re.match_at_start.
  rewrite compile_word by assumption. rewrite exec_literal.
  destruct (is_prefix mn p) eqn:E; [|reflexivity].
  unfold is_prefix in E. apply str_eqb_eq in E. cbn [Nat.add].
  rewrite <- E. reflexivity.
Qed.

(** On a remainder of word characters the literal branch answers whether
    the remainder is a prefix of the literal; it is a remainder with
    regular-expression syntax that is not compared literally. *)
Lemma literal_branch_word_remainder (chunk : PatternChunk)
  (chunks : list PatternChunk) (mn : str) (self : ModelNumberRegex) :
  (chunk_size chunk >? Z.of_nat (length mn))%Z = true ->
  is_plain_literal (chunk_pattern chunk) = true ->
  word_text mn ->
  match_chunks Re.re_match (chunk :: chunks) mn self
  = (Returned (is_prefix mn (chunk_pattern chunk)), self).
Proof.
  intros Hsize Hlit Hw. cbn [match_chunks]. rewrite Hsize, Hlit.
  unfold try_except, group_of. rewrite re_match_word by assumption.
  destruct (is_prefix mn (chunk_pattern chunk)); reflexivity.
Qed.

(** ** The matcher on concrete patterns *)

(** C1.  [ABC,DEF,GHI] compiles; the compiled pattern accepts [ABC] and
    rejects its prefix [A]. *)
Theorem accepted_candidate_rejected_prefix :
  exists self,
    compiled (lit "ABC,DEF,GHI") = Some self /\
    fst (is_match Re.re_match (Some (lit "ABC")) self) = Returned true /\
    is_prefix (lit "A") (lit "ABC") = true /\
    lit "A" <> [] /\
    fst (is_match Re.re_match (Some (lit "A")) self) = Returned false.
Proof.
  eexists. split; [vm_compute; reflexivity|].
  repeat split; try discriminate; vm_compute; reflexivity.
Qed.

(** Uneven options lose prefixes too, by the size of the fragment: [9,10]
    compiles to [(9|10)] of size 1, which accepts [10] and rejects [1]. *)
Example prefix_rejected_with_uneven_options :
  option_map _chunks (compiled (lit "9,10")) = Some [mkChunk (lit "(9|10)") 1] /\
  accepts "9,10" "10" = Some (Returned true) /\
  accepts "9,10" "1" = Some (Returned false).
Proof. repeat split; vm_compute; reflexivity. Qed.

(** C2.  The only fragment of [ABC,DEF,GHI] is the option group
    [(ABC|DEF|GHI)] of size 3.  On the candidate [A] the matcher reaches it
    with a remainder of one character; [A] is the option [ABC] cut to one
    character, and [is_match] returns [False]: the options are cut by
    [opt[:-len(mn)]], which drops the last character and leaves [AB], [DE]
    and [GH]. *)
Theorem option_group_cut_from_the_end :
  let chunk := mkChunk (lit "(ABC|DEF|GHI)") 3 in
  let mn := lit "A" in
  option_map _chunks (compiled (lit "ABC,DEF,GHI")) = Some [chunk] /\
  (chunk_size chunk >? Z.of_nat (length mn))%Z = true /\
  is_plain_literal (chunk_pattern chunk) = false /\
  is_option_group (chunk_pattern chunk) = true /\
  split "|" (slice (chunk_pattern chunk) 1 (length (chunk_pattern chunk) - 1))
  = [lit "ABC"; lit "DEF"; lit "GHI"] /\
  In mn (map (firstn (length mn)) [lit "ABC"; lit "DEF"; lit "GHI"]) /\
  map (fun opt => slice_to_neg opt (length mn)) [lit "ABC"; lit "DEF"; lit "GHI"]
  = [lit "AB"; lit "DE"; lit "GH"] /\
  accepts "ABC,DEF,GHI" "A" = Some (Returned false).
Proof.
  cbv zeta. repeat split; try (vm_compute; reflexivity).
  left. reflexivity.
Qed.

(** C3.  The only fragment of [AB] is the literal [AB] of size 2.  On the
    candidate [.] the matcher reaches it with a remainder of one character;
    [.] is not a prefix of [AB], and [is_match] returns [True]: the remainder
    is handed to [re.match] as the pattern, and [.] matches [A]. *)
Theorem literal_remainder_read_as_pattern :
  let chunk := mkChunk (lit "AB") 2 in
  let mn := lit "." in
  option_map _chunks (compiled (lit "AB")) = Some [chunk] /\
  (chunk_size chunk >? Z.of_nat (length mn))%Z = true /\
  is_plain_literal (chunk_pattern chunk) = true /\
  is_prefix mn (chunk_pattern chunk) = false /\
  Re.re_match mn (chunk_pattern chunk) = Match (lit "A") /\
  accepts "AB" "." = Some (Returned true).
Proof.
  cbv zeta. repeat split; vm_compute; reflexivity.
Qed.

(** * Further properties of the code *)

(** ** Which rule takes the cursor *)

Lemma count_run (c : ascii) (n : nat) (rest : str) :
  starts_with c rest = false ->
  count_while (Ascii.eqb c) (repeat c n ++ rest) = n.
Proof.
  intros Hrest. induction n as [|n IH]; cbn [repeat app count_while].
  - destruct rest as [|x rest]; [reflexivity|].
    cbn [starts_with] in Hrest. cbn [count_while].
    rewrite Ascii.eqb_sym, Hrest. reflexivity.
  - rewrite Ascii.eqb_refl, IH. reflexivity.
Qed.

Lemma replace_run (c : ascii) (by_ : str) (n : nat) :
  replace c by_ (repeat c n) = concat (repeat by_ n).
Proof.
  induction n as [|n IH]; [reflexivity|].
  unfold replace in *. cbn [repeat flat_map concat].
  rewrite Ascii.eqb_refl, IH. reflexivity.
Qed.

Lemma rule1_needs_group (s : str) : word_group s = None -> _rule1 s = None.
Proof.
  intros H. unfold _rule1, pattern1.
  destruct (length s); cbn [word_groups]; [reflexivity|].
  rewrite H. reflexivity.
Qed.

Lemma rule1_needs_word (c : ascii) (s : str) :
  is_word c = false -> _rule1 (c :: s) = None.
Proof.
  intros H. apply rule1_needs_group. unfold word_group.
  rewrite count_while_stop by assumption. reflexivity.
Qed.

Lemma rule2_needs_word (c : ascii) (s : str) :
  is_word c = false -> _rule2 (c :: s) = None.
Proof.
  intros H. unfold _rule2, pattern2.
  rewrite count_while_stop by assumption. reflexivity.
Qed.

Lemma rule3_needs_paren (c : ascii) (s : str) :
  Ascii.eqb c "(" = false -> _rule3 (c :: s) = None.
Proof. intros H. unfold _rule3, pattern3. rewrite H. reflexivity. Qed.

Lemma rule4_needs_star (c : ascii) (s : str) :
  Ascii.eqb c "*" = false -> _rule4 (c :: s) = None.
Proof.
  intros H. unfold _rule4, pattern4. cbn [count_while].
  rewrite Ascii.eqb_sym, H. reflexivity.
Qed.

Lemma rule5_needs_hyphen (c : ascii) (s : str) :
  Ascii.eqb c "-" = false -> _rule5 (c :: s) = None.
Proof.
  intros H. unfold _rule5, pattern5. cbn [count_while].
  rewrite Ascii.eqb_sym, H. reflexivity.
Qed.

Lemma rule6_needs_paren (c : ascii) (s : str) :
  Ascii.eqb c "(" = false -> _rule6 (c :: s) = None.
Proof.
  intros H. unfold _rule6, pattern6.
  destruct s as [|y [|z s]]; try reflexivity.
  rewrite H. reflexivity.
Qed.

Lemma first_rule_rules (s : str) :
  first_rule rules s =
    match _rule1 s with Some r => Some r | None =>
    match _rule2 s with Some r => Some r | None =>
    match _rule3 s with Some r => Some r | None =>
    match _rule4 s with Some r => Some r | None =>
    match _rule5 s with Some r => Some r | None => _rule6 s
    end end end end end.
Proof.
  unfold rules. cbn [first_rule].
  destruct (_rule1 s), (_rule2 s), (_rule3 s), (_rule4 s), (_rule5 s), (_rule6 s);
    reflexivity.
Qed.

Lemma literal_run_count (w rest : str) :
  word_text w -> count_while is_word rest = 0 ->
  count_while is_word (w ++ rest) = length w.
Proof.
  intros Hw Hrest. rewrite (count_while_app is_word) by exact Hw. lia.
Qed.

(** A run of word characters followed by no comma, or longer than three
    characters, opens no bare list. *)
Lemma literal_run_no_group (w rest : str) :
  word_text w -> count_while is_word rest = 0 ->
  starts_with "," rest = false \/ 3 < length w ->
  word_group (w ++ rest) = None.
Proof.
  intros Hw Hrest Hcomma. unfold word_group.
  rewrite literal_run_count, skipn_length_app by assumption.
  destruct Hcomma as [Hc|Hlong].
  - rewrite Hc, andb_false_r. reflexivity.
  - replace (length w <=? 3) with false by (symmetry; apply Nat.leb_gt; lia).
    rewrite andb_false_r. reflexivity.
Qed.

(** X1.  A run of word characters that is not the first option of a bare
    list is taken whole by the literal rule: on a cursor [w ++ rest], with
    [w] a non-empty text of word characters and [rest] beginning with no word
    character, and with no comma unless [w] is longer than three characters,
    the scan of the rules emits [w] unchanged with its length as size and
    leaves [rest]. *)
Theorem literal_run_taken_whole (w rest : str) :
  w <> [] -> word_text w -> count_while is_word rest = 0 ->
  starts_with "," rest = false \/ 3 < length w ->
  first_rule rules (w ++ rest) = Some (mkChunk w (Z.of_nat (length w)), rest).
Proof.
  intros Hne Hw Hrest Hcomma.
  rewrite first_rule_rules.
  rewrite rule1_needs_group by (apply literal_run_no_group; assumption).
  unfold _rule2, pattern2. rewrite literal_run_count by assumption.
  replace (length w =? 0) with false
    by (symmetry; apply Nat.eqb_neq; destruct w; [contradiction|discriminate]).
  rewrite firstn_length_app, skipn_length_app. reflexivity.
Qed.

Lemma literal_run_taken_whole_witness :
  first_rule rules (lit "ABS12" ++ lit "(A,B)")
  = Some (mkChunk (lit "ABS12") 5, lit "(A,B)").
Proof.
  apply (@literal_run_taken_whole (lit "ABS12") (lit "(A,B)")).
  - discriminate.
  - repeat constructor.
  - reflexivity.
  - left. reflexivity.
Defined.

(** X2.  A run of hyphens is taken by the hyphen rule, whatever follows: on
    a cursor of [n >= 1] hyphens and a rest that begins with no hyphen, the
    scan of the rules emits [n] times [-?] with the sentinel size [-1] and
    leaves the rest. *)
Theorem hyphen_run_made_optional (n : nat) (rest : str) :
  1 <= n -> starts_with "-" rest = false ->
  first_rule rules (repeat "-"%char n ++ rest)
  = Some (mkChunk (concat (repeat (lit "-?") n)) (-1), rest).
Proof.
  intros Hn Hrest.
  assert (Hcount := @count_run "-"%char n rest Hrest).
  destruct n as [|n]; [lia|].
  rewrite first_rule_rules.
  cbn [repeat app] in *.
  rewrite rule1_needs_word, rule2_needs_word, rule3_needs_paren, rule4_needs_star
    by reflexivity.
  unfold _rule5, pattern5. rewrite Hcount. cbn [Nat.eqb].
  change ("-"%char :: repeat "-"%char n ++ rest) with (repeat "-"%char (S n) ++ rest).
  assert (Hlen : length (repeat "-"%char (S n)) = S n) by apply repeat_length.
  assert (Hf : firstn (S n) (repeat "-"%char (S n) ++ rest) = repeat "-"%char (S n)).
  { rewrite <- Hlen at 1. apply firstn_length_app. }
  rewrite Hf, Hlen.
  assert (Hs : skipn (S n) (repeat "-"%char (S n) ++ rest) = rest).
  { rewrite <- Hlen at 1. apply skipn_length_app. }
  rewrite Hs, replace_run. reflexivity.
Qed.

Lemma hyphen_run_made_optional_witness :
  first_rule rules (repeat "-"%char 3 ++ lit "123")
  = Some (mkChunk (lit "-?-?-?") (-1), lit "123").
Proof.
  apply (@hyphen_run_made_optional 3 (lit "123")); [lia|reflexivity].
Defined.

(** X3.  An asterisk between parentheses at the front of the cursor goes to the last rule and
    not to the parenthesized-list rule: the scan of the rules emits the
    bounded wildcard [(\w{1,5})] with the sentinel size [-1] and leaves what
    follows the group. *)
Theorem wildcard_group_bounded (rest : str) :
  first_rule rules (lit "(*)" ++ rest)
  = Some (mkChunk (lit "(\w{1,5})") (-1), rest).
Proof.
  rewrite first_rule_rules.
  change (lit "(*)" ++ rest) with ("("%char :: "*"%char :: ")"%char :: rest).
  rewrite rule1_needs_word, rule2_needs_word by reflexivity.
  rewrite rule4_needs_star, rule5_needs_hyphen by reflexivity.
  reflexivity.
Qed.

(** X4.  The scan of the rules never fails on a cursor that begins with a
    word character, an asterisk or a hyphen: some rule returns a chunk. *)
Theorem rules_take_word_star_hyphen (c : ascii) (s : str) :
  is_word c = true \/ c = "*"%char \/ c = "-"%char ->
  exists res, first_rule rules (c :: s) = Some res.
Proof.
  intros Hc. rewrite first_rule_rules.
  destruct (_rule1 (c :: s)) as [r1|]; [eauto|].
  destruct Hc as [Hw|[->| ->]].
  - unfold _rule2, pattern2. cbn [count_while]. rewrite Hw. cbn [Nat.eqb]. eauto.
  - rewrite rule2_needs_word, rule3_needs_paren by reflexivity.
    unfold _rule4, pattern4. cbn [count_while Ascii.eqb Bool.eqb Nat.eqb].
    destruct (pattern4_sub1 _); eauto.
  - rewrite rule2_needs_word, rule3_needs_paren, rule4_needs_star by reflexivity.
    unfold _rule5, pattern5. cbn [count_while Ascii.eqb Bool.eqb Nat.eqb]. eauto.
Qed.

Lemma rules_take_word_star_hyphen_witness :
  exists res, first_rule rules ("A"%char :: lit ",*") = Some res.
Proof.
  apply rules_take_word_star_hyphen. left. reflexivity.
Defined.

Lemma stuck_first_character (c : ascii) (s : str) :
  is_word c = false -> c <> "("%char -> c <> "*"%char -> c <> "-"%char ->
  first_rule rules (c :: s) = None.
Proof.
  intros Hw Hp Hs Hh.
  apply Ascii.eqb_neq in Hp, Hs, Hh.
  rewrite first_rule_rules.
  rewrite rule1_needs_word, rule2_needs_word, rule3_needs_paren, rule4_needs_star,
    rule5_needs_hyphen, rule6_needs_paren by assumption.
  reflexivity.
Qed.

(** X5.  A notation whose preprocessed text begins with a character that is
    neither a word character nor [(], [*] or [-] is rejected at once:
    [transform] raises the parse failure on the whole preprocessed text, and
    leaves the object with no chunk and an empty pattern. *)
Theorem transform_rejects_first_character (raw : str) (self : ModelNumberRegex)
  (c : ascii) (s : str) :
  raw <> [] -> preprocess raw = c :: s ->
  is_word c = false -> c <> "("%char -> c <> "*"%char -> c <> "-"%char ->
  transform (Some raw) self
  = Some (Raised (CouldNotParse (preprocess raw)),
          mkSelf [] (Some raw) [] (preprocess raw)).
Proof.
  intros Hraw Hpre Hw Hp Hs Hh.
  rewrite transform_unfold by assumption.
  assert (Hnone : first_rule rules (preprocess raw) = None)
    by (rewrite Hpre; apply stuck_first_character; assumption).
  assert (Hat : forall n, loop_rem (mkLoop (preprocess raw) [] n) <> [])
    by (intros n; cbn [loop_rem]; rewrite Hpre; discriminate).
  unfold loop_bound, loop_start.
  replace (length (preprocess raw) + 4) with (S (S (S (S (length (preprocess raw)))))) by lia.
  rewrite while_loop_step, pass_retries by (try apply Hat; cbn; try assumption; lia).
  cbn [loop_rem loop_chunks break_count Nat.add].
  rewrite while_loop_step, pass_retries by (try apply Hat; cbn; try assumption; lia).
  cbn [loop_rem loop_chunks break_count Nat.add].
  rewrite while_loop_step, pass_retries by (try apply Hat; cbn; try assumption; lia).
  cbn [loop_rem loop_chunks break_count Nat.add].
  rewrite while_loop_step, pass_raises by (try apply Hat; cbn; try assumption; lia).
  reflexivity.
Qed.

Lemma transform_rejects_first_character_witness :
  transform (Some (lit ",AB")) (new_object None)
  = Some (Raised (CouldNotParse (lit ",AB")), mkSelf [] (Some (lit ",AB")) [] (lit ",AB")).
Proof.
  apply (@transform_rejects_first_character (lit ",AB") (new_object None) ","%char (lit "AB"));
    try discriminate; reflexivity.
Defined.

(** ** What the preprocessing leaves *)


Lemma in_firstn (n : nat) (s : str) (x : ascii) : In x (firstn n s) -> In x s.
Proof.
  intros H. rewrite <- (firstn_skipn n s). apply in_or_app. left. assumption.
Qed.

Lemma in_skipn (n : nat) (s : str) (x : ascii) : In x (skipn n s) -> In x s.
Proof.
  intros H. rewrite <- (firstn_skipn n s). apply in_or_app. right. assumption.
Qed.



Lemma occurrence_has_slash (s : str) (i : nat) : occurs_at s i -> In "/"%char s.
Proof.
  intros (d1 & d2 & _ & _ & H).
  eapply in_skipn. eapply in_firstn. rewrite H.
  apply in_or_app. right. left. reflexivity.
Qed.

Lemma no_slash_no_char (s : str) :
  ~ In "/"%char s -> Forall (fun x => Ascii.eqb x "/" = false) s.
Proof.
  intros H. apply Forall_forall. intros x Hx.
  destruct (Ascii.eqb x "/") eqn:E; [|reflexivity].
  apply Ascii.eqb_eq in E. subst x. contradiction.
Qed.


Lemma rule0_without_slash (s : str) : ~ In "/"%char s -> _rule0 s = s.
Proof.
  intros H. unfold _rule0. rewrite pattern0_search_none; [reflexivity|].
  intros i Hocc. apply H. eapply occurrence_has_slash. eassumption.
Qed.

(** A text without slash and plus goes through the preprocessing unchanged. *)
Lemma preprocess_clean_text (s : str) :
  ~ In "/"%char s -> ~ In "+"%char s -> preprocess s = s.
Proof.
  intros Hslash Hplus. unfold preprocess.
  rewrite before_plus_whole by assumption.
  rewrite rule0_without_slash by assumption.
  apply replace_absent. apply no_slash_no_char. assumption.
Qed.

(** *** Where the characters of the result come from *)























(** X7.  What follows the first plus sign plays no part in the compilation:
    a notation [head+tail] and the notation [head] alone start the loop on
    the same cursor, so [transform] ends the same way on both, with the same
    chunks, pattern text and cursor. *)
Theorem options_after_plus_ignored (head tail : str) (self : ModelNumberRegex) :
  head <> [] -> ~ In "+"%char head ->
  preprocess (head ++ "+"%char :: tail) = preprocess head /\
  option_map (fun r => (fst r, _chunks (snd r), pattern (snd r), _rem_str (snd r)))
             (transform (Some (head ++ "+"%char :: tail)) self)
  = option_map (fun r => (fst r, _chunks (snd r), pattern (snd r), _rem_str (snd r)))
               (transform (Some head) self).
Proof.
  intros Hne Hplus.
  assert (Hpre : preprocess (head ++ "+"%char :: tail) = preprocess head).
  { unfold preprocess. rewrite before_plus_cut, before_plus_whole by assumption.
    reflexivity. }
  split; [assumption|].
  assert (Hne' : head ++ "+"%char :: tail <> [])
    by (destruct head; [contradiction|discriminate]).
  pose proof (@transform_unfold (head ++ "+"%char :: tail) self Hne') as H1.
  pose proof (@transform_unfold head self Hne) as H2.
  unfold loop_start in H1, H2. rewrite Hpre in H1.
  etransitivity; [apply f_equal; exact H1|].
  symmetry. etransitivity; [apply f_equal; exact H2|].
  destruct (while_loop _ _) as [[st|st]|]; [|reflexivity|reflexivity].
  destruct (loop_rem st); reflexivity.
Qed.

Lemma options_after_plus_ignored_witness :
  preprocess (lit "FC/MC/PC32A" ++ "+"%char :: lit "TXV") = preprocess (lit "FC/MC/PC32A").
Proof.
  apply (@options_after_plus_ignored (lit "FC/MC/PC32A") (lit "TXV") (new_object None)).
  - discriminate.
  - simpl. intuition discriminate.
Defined.

(** ** The object across calls *)

Lemma transform_any_object (raw : str) (self other : ModelNumberRegex) :
  raw <> [] -> transform (Some raw) self = transform (Some raw) other.
Proof.
  intros Hraw.
  rewrite (@transform_unfold raw self Hraw), (@transform_unfold raw other Hraw).
  reflexivity.
Qed.

Lemma transform_returned_fields (raw : str) (self self' : ModelNumberRegex) :
  raw <> [] ->
  transform (Some raw) self = Some (Returned tt, self') ->
  _model_number self' = Some raw /\ _rem_str self' = [] /\
  pattern self' = concat (map chunk_pattern (_chunks self')).
Proof.
  intros Hraw. rewrite (@transform_unfold raw self Hraw).
  destruct (while_loop _ _) as [[st|st]|] eqn:Hrun; try discriminate.
  rewrite (while_loop_done _ _ Hrun).
  intros H. injection H as <-. auto.
Qed.

(** X8.  [transform] rebuilds the object from the notation alone: on two
    objects in any state it leaves equal objects and ends the same way, so
    nothing of an earlier compilation survives; and when it returns, the
    object stores the notation as given, an empty cursor, and as pattern the
    chunk patterns joined in order. *)
Theorem transform_replaces_object (raw : str) (self other : ModelNumberRegex) :
  raw <> [] ->
  transform (Some raw) self = transform (Some raw) other /\
  (forall self',
     transform (Some raw) self = Some (Returned tt, self') ->
     _model_number self' = Some raw /\ _rem_str self' = [] /\
     pattern self' = concat (map chunk_pattern (_chunks self'))).
Proof.
  intros Hraw. split.
  - apply transform_any_object. assumption.
  - intros self'. apply transform_returned_fields. assumption.
Qed.

Lemma transform_replaces_object_witness :
  transform (Some (lit "AB*")) (new_object None)
  = transform (Some (lit "AB*")) (mkSelf [mkChunk (lit "X") 1] (Some (lit "X")) (lit "X") []).
Proof.
  apply (@transform_replaces_object (lit "AB*")). discriminate.
Defined.

Lemma transform_stored (m : option str) (raw : str) (self : ModelNumberRegex) :
  truthy m = false -> raw <> [] -> _model_number self = Some raw ->
  transform m self = transform (Some raw) self.
Proof.
  intros Hm Hraw Hs. destruct raw as [|c raw]; [contradiction|].
  destruct self as [ch mn pat rem]. cbn [_model_number] in Hs. subst mn.
  unfold transform. rewrite Hm. reflexivity.
Qed.

(** X9.  Compiling again changes nothing: after [transform] returned on a
    notation, [transform()] without argument recompiles the stored notation,
    returns, and leaves the same object. *)
Theorem transform_again_same_object (raw : str) (self self' : ModelNumberRegex) :
  raw <> [] ->
  transform (Some raw) self = Some (Returned tt, self') ->
  transform None self' = Some (Returned tt, self').
Proof.
  intros Hraw H.
  destruct (@transform_returned_fields raw self self' Hraw H) as [Hm _].
  rewrite (@transform_stored None raw self' eq_refl Hraw Hm).
  rewrite (@transform_any_object raw self' self Hraw). assumption.
Qed.

Lemma transform_again_same_object_witness :
  exists self',
    transform (Some (lit "AB*")) (new_object None) = Some (Returned tt, self') /\
    transform None self' = Some (Returned tt, self').
Proof.
  eexists. split; [vm_compute; reflexivity|].
  apply (@transform_again_same_object (lit "AB*") (new_object None)).
  - discriminate.
  - vm_compute. reflexivity.
Defined.

(** X20.  Called without a notation, or with the empty one, [transform]
    falls back on the notation the object stores, and compiles it as if it
    had been given; when the object stores none, or the empty one, it raises
    the missing-notation error and leaves the object as it was. *)
Theorem transform_falls_back_on_stored (m : option str) (self : ModelNumberRegex) :
  truthy m = false ->
  (truthy (_model_number self) = false ->
   transform m self = Some (Raised NoModelNumber, self)) /\
  (forall raw, raw <> [] -> _model_number self = Some raw ->
               transform m self = transform (Some raw) self).
Proof.
  intros Hm. split.
  - intros Hs. unfold transform. rewrite Hm, Hs. reflexivity.
  - intros raw Hraw Hs. apply transform_stored; assumption.
Qed.

Lemma transform_falls_back_on_stored_witness :
  transform (Some []) (new_object None) = Some (Raised NoModelNumber, new_object None).
Proof.
  apply (proj1 (@transform_falls_back_on_stored (Some []) (new_object None) eq_refl)).
  reflexivity.
Defined.

(** X10.  A failed [transform] does not put the object back: when it raises
    on a notation, the object keeps that notation, an empty pattern text, the
    chunks emitted before the failure and the cursor that no rule took,
    whatever it held before. *)
Theorem failed_transform_keeps_partial_state (raw : str)
  (self self' : ModelNumberRegex) (e : exn) :
  raw <> [] ->
  transform (Some raw) self = Some (Raised e, self') ->
  _model_number self' = Some raw /\ pattern self' = [] /\
  e = CouldNotParse (_rem_str self') /\
  exists st, reaches (loop_start raw) st /\ no_progress st /\
             _chunks self' = loop_chunks st /\ _rem_str self' = loop_rem st.
Proof.
  intros Hraw. rewrite (@transform_unfold raw self Hraw).
  destruct (while_loop _ _) as [[st|st]|] eqn:Hrun; try discriminate.
  - rewrite (while_loop_done _ _ Hrun). discriminate.
  - intros H. injection H as <- <-. cbn [_model_number pattern _rem_str _chunks].
    repeat split.
    destruct (@raised_after_three (loop_bound (preprocess raw)) (loop_start raw) st) as (s1 & s2 & Hreach & Hp1 & Hp2 & Hn1 & Hn2 & Hn3);
      [simpl; lia|exact Hrun|].
    exists st. repeat split; try apply Hn3.
    (* the raising state is two passes after [s1] *)
    assert (Hstep : forall a b c, reaches a b -> loop_rem b <> [] ->
                                  loop_pass b = Continue c -> reaches a c).
    { intros a b c Hab. induction Hab as [a|a a1 b Hne Hp _ IH]; intros Hb Hbc.
      - eapply reaches_pass; [eassumption|eassumption|apply reaches_here].
      - eapply reaches_pass; [eassumption|eassumption|]. apply IH; assumption. }
    eapply Hstep; [|apply Hn2|exact Hp2].
    eapply Hstep; [exact Hreach|apply Hn1|exact Hp1].
Qed.

Lemma failed_transform_keeps_partial_state_witness :
  exists self',
    transform (Some (lit "AB(A")) (new_object None)
    = Some (Raised (CouldNotParse (lit "(A")), self') /\
    _model_number self' = Some (lit "AB(A") /\ pattern self' = [].
Proof.
  eexists. split; [vm_compute; reflexivity|].
  assert (Hraw : lit "AB(A" <> []) by discriminate.
  destruct (@failed_transform_keeps_partial_state (lit "AB(A") (new_object None) _ _ Hraw
              ltac:(vm_compute; reflexivity)) as (Hm & Hp & _).
  split; assumption.
Defined.

Section UncompiledObject.

Variable re_match : str -> str -> re_result.

(** X11.  The constructor without a notation, or with the empty one, does
    not raise and builds an object without chunks; and an object without
    chunks accepts every non-empty candidate, with any engine: a matcher that
    was never compiled says yes to everything. *)
Theorem uncompiled_object_accepts_all :
  construct None = Some (Returned tt, new_object None) /\
  construct (Some []) = Some (Returned tt, new_object (Some [])) /\
  (forall (self : ModelNumberRegex) (cand : option str),
     _chunks self = [] ->
     fst (is_match re_match cand self) = Returned (truthy cand)).
Proof.
  split; [reflexivity|]. split; [reflexivity|].
  intros self cand Hch. unfold is_match.
  destruct (truthy cand); [|reflexivity].
  cbn [negb]. unfold bind, attr. rewrite Hch. reflexivity.
Qed.

End UncompiledObject.

Lemma uncompiled_object_accepts_all_witness :
  fst (is_match Re.re_match (Some (lit "XYZ")) (new_object None)) = Returned true.
Proof.
  apply (proj2 (proj2 (uncompiled_object_accepts_all Re.re_match))). reflexivity.
Defined.

(** ** What the loop keeps *)

Lemma while_loop_grows (fuel : nat) (st st' : loop_state) :
  while_loop fuel st = Some (LoopDone st') \/ while_loop fuel st = Some (LoopRaised st') ->
  (exists more, loop_chunks st' = loop_chunks st ++ more /\
                length more + length (loop_rem st') <= length (loop_rem st)).
Proof.
  revert st. induction fuel as [|fuel IH]; intros st H.
  - simpl in H. destruct (loop_rem st) eqn:E.
    + destruct H as [H|H]; [|discriminate]. injection H as <-.
      exists []. rewrite app_nil_r, E. split; [reflexivity|simpl; lia].
    + destruct H; discriminate.
  - destruct (loop_rem st) as [|c rem] eqn:E.
    + simpl in H. rewrite E in H. destruct H as [H|H]; [|discriminate].
      injection H as <-. exists []. rewrite app_nil_r, E. split; [reflexivity|simpl; lia].
    + assert (Hne : loop_rem st <> []) by (rewrite E; discriminate).
      rewrite while_loop_step in H by assumption.
      destruct (first_rule rules (loop_rem st)) as [[res rem']|] eqn:Hrule.
      * rewrite (pass_consumes _ Hrule) in H.
        apply IH in H. destruct H as (more & Hch & Hlen).
        cbn [loop_chunks loop_rem] in Hch, Hlen.
        exists (res :: more). rewrite Hch, <- app_assoc. split; [reflexivity|].
        apply first_rule_trims in Hrule. rewrite E in *. cbn [length] in *. lia.
      * destruct (le_lt_dec (break_count st) 2) as [Hle|Hgt].
        -- rewrite pass_retries in H by assumption.
           apply IH in H. cbn [loop_chunks loop_rem] in H.
           rewrite E in H. exact H.
        -- rewrite pass_raises in H by assumption.
           destruct H as [H|H]; [discriminate|]. injection H as <-.
           exists []. rewrite app_nil_r. split; [reflexivity|rewrite ?E; cbn [length Nat.add]; lia].
Qed.

(** X12.  Every chunk costs the cursor at least one character: however
    [transform] ends on a notation, the object holds at most as many chunks
    as the preprocessed notation has characters, counting those still on the
    cursor. *)
Theorem chunks_bounded_by_text (raw : str) (self self' : ModelNumberRegex)
  (r : outcome unit) :
  raw <> [] ->
  transform (Some raw) self = Some (r, self') ->
  length (_chunks self') + length (_rem_str self') <= length (preprocess raw).
Proof.
  intros Hraw. rewrite (@transform_unfold raw self Hraw).
  destruct (while_loop _ _) as [[st|st]|] eqn:Hrun; try discriminate.
  - destruct (@while_loop_grows (loop_bound (preprocess raw)) (loop_start raw) st (or_introl Hrun)) as (more & Hch & Hlen).
    cbn [loop_start loop_chunks loop_rem app] in Hch, Hlen.
    destruct (loop_rem st) eqn:E; intros H; injection H as _ <-;
      cbn [_chunks _rem_str]; rewrite Hch; cbn [length] in *; lia.
  - destruct (@while_loop_grows (loop_bound (preprocess raw)) (loop_start raw) st (or_intror Hrun)) as (more & Hch & Hlen).
    cbn [loop_start loop_chunks loop_rem app] in Hch, Hlen.
    intros H. injection H as _ <-. cbn [_chunks _rem_str]. rewrite Hch. lia.
Qed.

Lemma chunks_bounded_by_text_witness :
  exists self',
    transform (Some (lit "*U1(CD,DK,TT)**--16")) (new_object None) = Some (Returned tt, self') /\
    length (_chunks self') + length (_rem_str self')
    <= length (preprocess (lit "*U1(CD,DK,TT)**--16")).
Proof.
  eexists. split; [vm_compute; reflexivity|].
  apply (@chunks_bounded_by_text (lit "*U1(CD,DK,TT)**--16") (new_object None) _ (Returned tt)).
  - discriminate.
  - vm_compute. reflexivity.
Defined.

(** ** Lists and asterisks in the scan of the rules *)

(** X13.  A parenthesized list of options goes to the parenthesized-list
    rule: on a cursor that begins with [(o1,...,on)], each option of 1 to 3
    word characters, the scan of the rules emits [(o1|...|on)] and leaves what
    follows the closing parenthesis; the size is the length of the first
    option for two options or more, and that length plus one for a single
    option. *)
Theorem parenthesized_list_taken (opts : list str) (rest : str) :
  opts <> [] -> Forall (short_option 3) opts ->
  first_rule rules (lit "(" ++ join (lit ",") opts ++ lit ")" ++ rest)
  = Some (mkChunk (lit "(" ++ join (lit "|") opts ++ lit ")")
                  (if length opts =? 1
                   then Z.of_nat (length (hd [] opts)) + 1
                   else Z.of_nat (length (hd [] opts))),
          rest).
Proof.
  intros Hne Hopts. rewrite first_rule_rules.
  rewrite rule3_list by assumption.
  change (lit "(" ++ join (lit ",") opts ++ lit ")" ++ rest)
    with ("("%char :: join (lit ",") opts ++ lit ")" ++ rest).
  rewrite rule1_needs_word, rule2_needs_word by reflexivity.
  reflexivity.
Qed.

Lemma parenthesized_list_taken_witness :
  first_rule rules (lit "(X1,Y1,Z1)4*")
  = Some (mkChunk (lit "(X1|Y1|Z1)") 2, lit "4*").
Proof.
  apply (@parenthesized_list_taken [lit "X1"; lit "Y1"; lit "Z1"] (lit "4*")).
  - discriminate.
  - repeat constructor.
Defined.

(** X14.  A run of asterisks goes to the asterisk rule: on a cursor of
    [n >= 1] asterisks and a rest that begins with no asterisk, other than an
    asterisk before a final newline, the scan of the rules leaves the rest and
    emits [\w+] of size 1 when the cursor is a single asterisk and [n] times
    [\w] of size [n] otherwise. *)
Theorem asterisk_run_taken (n : nat) (rest : str) :
  1 <= n -> starts_with "*" rest = false ->
  repeat "*"%char n ++ rest <> lit "*" ++ [newline] ->
  first_rule rules (repeat "*"%char n ++ rest)
  = Some (if str_eqb (repeat "*"%char n ++ rest) (lit "*")
          then mkChunk (lit "\w+") 1
          else mkChunk (concat (repeat (lit "\w") n)) (Z.of_nat n),
          rest).
Proof.
  intros Hn Hrest Hnl. rewrite first_rule_rules.
  rewrite rule4_run by assumption.
  destruct n as [|n]; [lia|]. cbn [repeat app].
  rewrite rule1_needs_word, rule2_needs_word, rule3_needs_paren by reflexivity.
  reflexivity.
Qed.

Lemma asterisk_run_taken_witness :
  first_rule rules (repeat "*"%char 2 ++ lit "14")
  = Some (mkChunk (lit "\w\w") 2, lit "14").
Proof.
  apply (@asterisk_run_taken 2 (lit "14")); [lia|reflexivity|discriminate].
Defined.

(** ** Literal notations *)

Lemma word_text_clean (w : str) :
  word_text w -> ~ In "/"%char w /\ ~ In "+"%char w.
Proof.
  intros Hw. split; apply word_not_in; (reflexivity || assumption).
Qed.

(** X15.  A notation of word characters only compiles to itself: [transform]
    returns with a single chunk, the notation as a literal of its own length,
    and the notation as pattern text. *)
Theorem word_notation_compiles_to_itself (w : str) (self : ModelNumberRegex) :
  w <> [] -> word_text w ->
  transform (Some w) self
  = Some (Returned tt, mkSelf [mkChunk w (Z.of_nat (length w))] (Some w) w []).
Proof.
  intros Hne Hw. rewrite transform_unfold by assumption.
  destruct (word_text_clean Hw) as [Hs Hp].
  unfold loop_start, loop_bound. rewrite preprocess_clean_text by assumption.
  replace (length w + 4) with (S (length w + 3)) by lia.
  rewrite while_loop_step by assumption.
  assert (Hrule : first_rule rules w = Some (mkChunk w (Z.of_nat (length w)), [])).
  { rewrite first_rule_rules.
    assert (Hgroup : word_group w = None).
    { rewrite <- (app_nil_r w).
      apply literal_run_no_group; [assumption|reflexivity|left; reflexivity]. }
    rewrite (rule1_needs_group _ Hgroup).
    unfold _rule2, pattern2.
    assert (Hcount : count_while is_word w = length w).
    { rewrite <- (app_nil_r w) at 1.
      rewrite literal_run_count by (assumption || reflexivity). reflexivity. }
    rewrite Hcount.
    replace (length w =? 0) with false
      by (symmetry; apply Nat.eqb_neq; destruct w; [contradiction|discriminate]).
    rewrite firstn_all, skipn_all. reflexivity. }
  rewrite (@pass_consumes (mkLoop w [] 0) _ _ Hrule).
  destruct (length w + 3); cbn [while_loop loop_rem loop_chunks app concat map chunk_pattern];
    rewrite app_nil_r; reflexivity.
Qed.

Lemma word_notation_compiles_to_itself_witness :
  transform (Some (lit "XDD2B080ACV3")) (new_object None)
  = Some (Returned tt,
          mkSelf [mkChunk (lit "XDD2B080ACV3") 12] (Some (lit "XDD2B080ACV3"))
                 (lit "XDD2B080ACV3") []).
Proof.
  apply (@word_notation_compiles_to_itself (lit "XDD2B080ACV3") (new_object None)).
  - discriminate.
  - repeat constructor.
Defined.

Lemma plain_literal_word (w : str) :
  w <> [] -> word_text w -> is_plain_literal w = true.
Proof.
  intros Hne Hw. unfold is_plain_literal.
  assert (Hcount : count_while is_word w = length w).
  { rewrite <- (app_nil_r w) at 1.
    rewrite (count_while_app is_word) by exact Hw. simpl. lia. }
  rewrite Hcount, skipn_all.
  destruct w; [contradiction|reflexivity].
Qed.

Lemma size_test (a b : nat) : (Z.of_nat a >? Z.of_nat b)%Z = (b <? a).
Proof.
  rewrite Z.gtb_ltb. destruct (b <? a) eqn:E.
  - apply Nat.ltb_lt in E. apply Z.ltb_lt. lia.
  - apply Nat.ltb_ge in E. apply Z.ltb_ge. lia.
Qed.

(** X16.  Against a pattern that is one literal [w], a candidate is accepted
    when one of the two texts begins the other: a shorter candidate (of word
    characters) when it is a prefix of [w], and a candidate at least as long
    as [w] when [w] is a prefix of it, whatever follows [w] in it. *)
Theorem literal_pattern_accepts_either_prefix (w cand : str) (self : ModelNumberRegex) :
  w <> [] -> word_text w -> cand <> [] ->
  (length cand < length w -> word_text cand) ->
  _chunks self = [mkChunk w (Z.of_nat (length w))] ->
  fst (is_match Re.re_match (Some cand) self)
  = Returned (if length cand <? length w then is_prefix cand w else is_prefix w cand).
Proof.
  intros Hne Hw Hcand Hshort Hch. unfold is_match.
  replace (truthy (Some cand)) with true by (destruct cand; [contradiction|reflexivity]).
  cbn [negb text_of]. unfold bind, attr. rewrite Hch.
  destruct (length cand <? length w) eqn:E.
  - rewrite literal_branch_word_remainder; cbn [chunk_size chunk_pattern].
    + reflexivity.
    + rewrite size_test. assumption.
    + apply plain_literal_word; assumption.
    + apply Hshort. apply Nat.ltb_lt. assumption.
  - cbn [match_chunks chunk_size chunk_pattern]. rewrite size_test, E.
    unfold try_except, group_of. rewrite re_match_word by assumption.
    destruct (is_prefix w cand); reflexivity.
Qed.

Lemma literal_pattern_accepts_either_prefix_witness :
  fst (is_match Re.re_match (Some (lit "ABCXYZ"))
                (mkSelf [mkChunk (lit "ABC") 3] (Some (lit "ABC")) (lit "ABC") []))
  = Returned true.
Proof.
  apply (@literal_pattern_accepts_either_prefix (lit "ABC") (lit "ABCXYZ")).
  - discriminate.
  - repeat constructor.
  - discriminate.
  - simpl. lia.
  - reflexivity.
Defined.

(** ** The too-short branches *)

(** X17.  Once the candidate is used up, a next fragment of positive size
    ends the walk with [True], whatever that fragment and the ones after it
    are. *)
Theorem used_up_candidate_accepted (chunk : PatternChunk)
  (chunks : list PatternChunk) (self : ModelNumberRegex) :
  (0 < chunk_size chunk)%Z ->
  match_chunks Re.re_match (chunk :: chunks) [] self = (Returned true, self).
Proof.
  intros Hsize. cbn [match_chunks length].
  replace (chunk_size chunk >? Z.of_nat 0)%Z with true
    by (symmetry; rewrite Z.gtb_ltb; apply Z.ltb_lt; simpl; lia).
  destruct (is_plain_literal (chunk_pattern chunk)).
  - unfold try_except, group_of.
    rewrite re_match_word by constructor. reflexivity.
  - destruct (is_option_group (chunk_pattern chunk)); [|reflexivity].
    pose proof (split_not_nil "|" (slice (chunk_pattern chunk) 1
                                         (length (chunk_pattern chunk) - 1))) as Hne.
    destruct (split "|" _) as [|opt options]; [contradiction|].
    reflexivity.
Qed.

Lemma used_up_candidate_accepted_witness :
  match_chunks Re.re_match [mkChunk (lit "(T|X|M)") 1; mkChunk (lit "B") 1] []
               (new_object None)
  = (Returned true, new_object None).
Proof.
  apply used_up_candidate_accepted. reflexivity.
Defined.

Section OptionGroupBranch.

Variable re_match : str -> str -> re_result.

(** X18.  When the remainder is too short for an option group, the walk
    ends there, with any engine: it returns [True] exactly when the remainder
    is empty or is the first half of one of the options. *)
Theorem option_group_accepts_first_half (chunk : PatternChunk)
  (chunks : list PatternChunk) (mn : str) (self : ModelNumberRegex) :
  (chunk_size chunk >? Z.of_nat (length mn))%Z = true ->
  is_plain_literal (chunk_pattern chunk) = false ->
  is_option_group (chunk_pattern chunk) = true ->
  let p := chunk_pattern chunk in
  let options := split "|" (slice p 1 (length p - 1)) in
  exists b,
    match_chunks re_match (chunk :: chunks) mn self = (Returned b, self) /\
    (b = true <->
     exists opt, In opt options /\ mn = firstn (length mn) opt /\
                 (mn = [] \/ length opt = 2 * length mn)).
Proof.
  intros Hsize Hlit Hgroup. cbv zeta.
  cbn [match_chunks]. rewrite Hsize, Hlit, Hgroup.
  eexists. split; [reflexivity|]. apply cut_options_spec.
Qed.

End OptionGroupBranch.

Lemma option_group_accepts_first_half_witness :
  exists b,
    match_chunks Re.re_match [mkChunk (lit "(AB|CD|EF)") 2] (lit "C") (new_object None)
    = (Returned b, new_object None) /\
    (b = true <->
     exists opt, In opt [lit "AB"; lit "CD"; lit "EF"] /\
                 lit "C" = firstn 1 opt /\ (lit "C" = [] \/ length opt = 2)).
Proof.
  apply (@option_group_accepts_first_half Re.re_match
           (mkChunk (lit "(AB|CD|EF)") 2) [] (lit "C") (new_object None));
    reflexivity.
Defined.

(** ** How the matcher reads the fragments of the rewriter *)

Lemma option_body_word (st : body_state) (b : bool) (c : ascii) (o s : str) :
  word_text (c :: o) ->
  option_body st b (c :: o ++ s) = option_body AfterWord b s.
Proof.
  revert st c. induction o as [|d o IH]; intros st c Hw;
    inversion Hw as [|? ? Hc Hw']; subst.
  - cbn [app option_body]. rewrite Hc. reflexivity.
  - assert (Hstep : option_body st b (c :: (d :: o) ++ s)
                    = option_body AfterWord b ((d :: o) ++ s))
      by (cbn [option_body]; rewrite Hc; reflexivity).
    rewrite Hstep. change ((d :: o) ++ s) with (d :: o ++ s). apply IH. assumption.
Qed.

Lemma option_body_bar (b : bool) (s : str) :
  option_body AfterWord b ("|"%char :: s) = option_body AfterComma true s.
Proof. reflexivity. Qed.

Lemma option_body_close (st : body_state) (b : bool) (s : str) :
  option_body st b (")"%char :: s) = b && at_end s.
Proof. reflexivity. Qed.

Lemma option_body_list (st : body_state) (b : bool) (opts : list str) :
  opts <> [] -> Forall (short_option 3) opts ->
  option_body st b (join (lit "|") opts ++ lit ")") = b || negb (length opts =? 1).
Proof.
  intros Hne Hopts. revert st b.
  induction Hopts as [|o opts [Hlen Hw] Hrest IH]; [contradiction|]; intros st b.
  destruct o as [|c o]; [cbn [length] in Hlen; lia|].
  destruct opts as [|o2 opts].
  - cbn [join length Nat.eqb negb]. change ((c :: o) ++ lit ")") with (c :: o ++ lit ")").
    rewrite option_body_word by assumption.
    change (lit ")") with [")"%char]. rewrite option_body_close.
    cbn [at_end]. rewrite andb_true_r, orb_false_r. reflexivity.
  - change (join (lit "|") ((c :: o) :: o2 :: opts))
      with ((c :: o) ++ "|"%char :: join (lit "|") (o2 :: opts)).
    rewrite <- app_assoc.
    change ((c :: o) ++ ("|"%char :: join (lit "|") (o2 :: opts)) ++ lit ")")
      with (c :: o ++ "|"%char :: (join (lit "|") (o2 :: opts) ++ lit ")")).
    rewrite option_body_word by assumption.
    rewrite option_body_bar, IH by discriminate.
    cbn [length Nat.eqb negb orb]. rewrite orb_true_r. reflexivity.
Qed.

(** X19.  The matcher recognises what the rewriter emits: a literal run is
    read as a plain literal; a list of two or more options between
    parentheses is read as an option group; a single option between
    parentheses is read as neither, so a remainder too short for it is
    accepted without a look at it. *)
Theorem emitted_fragments_recognised :
  (forall w : str,
     w <> [] -> word_text w ->
     is_plain_literal w = true /\ is_option_group w = false) /\
  (forall opts : list str,
     opts <> [] -> Forall (short_option 3) opts ->
     let p := lit "(" ++ join (lit "|") opts ++ lit ")" in
     is_plain_literal p = false /\
     is_option_group p = negb (length opts =? 1)) /\
  (forall (re_match : str -> str -> re_result) (o mn : str) (size : Z)
          (chunks : list PatternChunk) (self : ModelNumberRegex),
     short_option 3 o -> (size >? Z.of_nat (length mn))%Z = true ->
     match_chunks re_match (mkChunk (lit "(" ++ o ++ lit ")") size :: chunks) mn self
     = (Returned true, self)).
Proof.
  assert (Hgroup : forall opts : list str,
            opts <> [] -> Forall (short_option 3) opts ->
            is_plain_literal (lit "(" ++ join (lit "|") opts ++ lit ")") = false /\
            is_option_group (lit "(" ++ join (lit "|") opts ++ lit ")")
            = negb (length opts =? 1)).
  { intros opts Hne Hopts. split; [reflexivity|].
    change (lit "(" ++ join (lit "|") opts ++ lit ")")
      with ("("%char :: join (lit "|") opts ++ lit ")").
    unfold is_option_group. rewrite Ascii.eqb_refl. cbn [andb].
    rewrite option_body_list by assumption. reflexivity. }
  split; [|split].
  - intros w Hne Hw. split; [apply plain_literal_word; assumption|].
    destruct w as [|c w]; [contradiction|].
    inversion Hw as [|? ? Hc _]; subst. unfold is_option_group.
    rewrite (@word_eqb_false c "("%char Hc) by reflexivity. reflexivity.
  - exact Hgroup.
  - intros re_match o mn size chunks self Ho Hsize.
    destruct (Hgroup [o]) as [Hlit Hgrp]; [discriminate|constructor; [assumption|constructor]|].
    cbn [join length Nat.eqb negb] in Hlit, Hgrp.
    cbn [match_chunks chunk_size chunk_pattern]. rewrite Hsize, Hlit, Hgrp. reflexivity.
Qed.

Lemma emitted_fragments_recognised_witness :
  is_plain_literal (lit "(AB|CD)") = false /\
  is_option_group (lit "(AB|CD)") = true.
Proof.
  apply (proj1 (proj2 emitted_fragments_recognised) [lit "AB"; lit "CD"]).
  - discriminate.
  - repeat constructor.
Defined.
